(** * AMZ Analytics: the event batching and delivery core

    A shallow embedding of the [Analytics] class of [src/csvAnalytics.ts]
    (the framework-agnostic module: constructor, [trackEvent], [flush],
    [flushSync], [sendBatch], [retryFailedBatches], [clear], [destroy]) as
    a transition system over an explicit instance state, together with the
    properties of its queue, its retry/backoff coordinator and its
    failed-batch archive.

    Conventions of the embedding.
    - JavaScript objects used as string-keyed records (events, the context,
      parsed attributes) are finite maps [gmap string JsValue]; the order of
      keys on the wire is not modelled.
    - JavaScript numbers are decimal literals [JNum m e] (m * 10^e); the
      numeric configuration fields and [Date.now()] are integers [Z].
      NaN, infinities and rounding are not modelled.
    - An [async] function is modelled by its synchronous prefix plus a
      suspended task; the browser resumes a task with [FetchSettled] or
      [TimeoutElapsed].  Everything between two suspension points runs as
      one step, as on the single JavaScript thread. *)

From stdpp Require Import gmap strings list fin_maps pretty.
From Stdlib Require Import ZArith Lia Ascii.

Set Warnings "-register-all".
Open Scope Z_scope.

(** ** JavaScript values and completions *)

Inductive JsValue : Type :=
| JUndefined
| JNull
| JBool (b : bool)
| JNum (mantissa exponent : Z)
| JStr (s : string)
| JArr (items : list JsValue)
| JObj (props : gmap string JsValue).

Abbreviation JsObject := (gmap string JsValue).

(** [if (v)]: the falsy values are undefined, null, false, 0 and the empty
    string. *)
Definition truthy (v : JsValue) : bool :=
  match v with
  | JUndefined | JNull => false
  | JBool b => b
  | JNum m _ => negb (m =? 0)
  | JStr s => negb (String.eqb s "")
  | JArr _ | JObj _ => true
  end.

(** The outcome of evaluating a JavaScript call: a value or a raised
    exception. *)
Inductive Completion (A : Type) : Type :=
| Normal (a : A)
| Throw (error : string).
Arguments Normal {A} a.
Arguments Throw {A} error.

#[global] Instance completion_ret : MRet Completion := @Normal.
#[global] Instance completion_bind : MBind Completion := λ A B k c,
  match c with
  | Normal a => k a
  | Throw e => Throw e
  end.

(** [try { body } catch (e) { handler }] *)
Definition try_catch {A} (body : Completion A) (handler : string → Completion A)
  : Completion A :=
  match body with
  | Normal a => Normal a
  | Throw e => handler e
  end.

Definition raises {A} (c : Completion A) : Prop := ∃ e, c = Throw e.

(** ** A reference [JSON.parse]

    [JSON.parse] is a builtin of the host, not code of the repository.  The
    model of the class below is parametric in it; this executable parser of
    the JSON grammar (ECMA-404) is the instance at which the parametric
    results are evaluated.  Strings are byte strings; a [\uXXXX] escape is
    stored as the UTF-8 bytes of that code unit. *)
Module Json.

Definition dquote : ascii := "034"%char.
Definition backslash : ascii := "092"%char.

Definition is_ws (c : ascii) : bool :=
  match c with
  | " "%char | "009"%char | "010"%char | "013"%char => true
  | _ => false
  end.

Fixpoint skip_ws (s : string) : string :=
  match s with
  | String c r => if is_ws c then skip_ws r else s
  | EmptyString => s
  end.

Definition digit_of (c : ascii) : option Z :=
  let n := Z.of_N (Ascii.N_of_ascii c) in
  if (48 <=? n) && (n <=? 57) then Some (n - 48) else None.

Definition hex_of (c : ascii) : option Z :=
  let n := Z.of_N (Ascii.N_of_ascii c) in
  if (48 <=? n) && (n <=? 57) then Some (n - 48)
  else if (65 <=? n) && (n <=? 70) then Some (n - 55)
  else if (97 <=? n) && (n <=? 102) then Some (n - 87)
  else None.

(** Reads a possibly empty run of digits: accumulated value, number of
    digits read, rest of the input. *)
Fixpoint digits (acc : Z) (count : Z) (s : string) : Z * Z * string :=
  match s with
  | String c r =>
      match digit_of c with
      | Some d => digits (10 * acc + d) (count + 1) r
      | None => (acc, count, s)
      end
  | EmptyString => (acc, count, s)
  end.

(** int: [0] or a non-zero digit followed by digits. *)
Definition parse_int (s : string) : option (Z * string) :=
  match s with
  | String c r =>
      match digit_of c with
      | Some 0 => Some (0, r)
      | Some d => let '(v, _, r') := digits d 1 r in Some (v, r')
      | None => None
      end
  | EmptyString => None
  end.

(** frac: nothing, or [.] and at least one digit.  Returns the mantissa
    extended by the fraction digits and their number. *)
Definition parse_frac (m : Z) (s : string) : option (Z * Z * string) :=
  match s with
  | String "."%char r =>
      let '(v, n, r') := digits m 0 r in
      if n =? 0 then None else Some (v, n, r')
  | _ => Some (m, 0, s)
  end.

(** exp: nothing, or [e]/[E], an optional sign and at least one digit. *)
Definition parse_exp (s : string) : option (Z * string) :=
  match s with
  | String c r =>
      if Ascii.eqb c "e" || Ascii.eqb c "E" then
        let '(sign, r1) :=
          match r with
          | String "+"%char r1 => (1, r1)
          | String "-"%char r1 => (-1, r1)
          | _ => (1, r)
          end in
        let '(v, n, r2) := digits 0 0 r1 in
        if n =? 0 then None else Some (sign * v, r2)
      else Some (0, s)
  | EmptyString => Some (0, s)
  end.

Definition parse_number (s : string) : option (JsValue * string) :=
  let '(sign, s1) :=
    match s with
    | String "-"%char r => (-1, r)
    | _ => (1, s)
    end in
  '(i, s2) ← parse_int s1;
  '(m, n, s3) ← parse_frac i s2;
  '(e, s4) ← parse_exp s3;
  Some (JNum (sign * m) (e - n), s4).

(** UTF-8 bytes of a code unit below 0x10000. *)
Definition utf8 (u : Z) : string :=
  let byte (z : Z) := Ascii.ascii_of_N (Z.to_N z) in
  if u <? 128 then String (byte u) EmptyString
  else if u <? 2048 then
    String (byte (192 + u / 64)) (String (byte (128 + u mod 64)) EmptyString)
  else
    String (byte (224 + u / 4096))
      (String (byte (128 + (u / 64) mod 64))
         (String (byte (128 + u mod 64)) EmptyString)).

Definition parse_hex4 (s : string) : option (Z * string) :=
  match s with
  | String a (String b (String c (String d r))) =>
      x3 ← hex_of a; x2 ← hex_of b; x1 ← hex_of c; x0 ← hex_of d;
      Some (((x3 * 16 + x2) * 16 + x1) * 16 + x0, r)
  | _ => None
  end.

(** The characters of a string literal after its opening quote, up to and
    including the closing quote. *)
Fixpoint parse_chars (fuel : nat) (s : string) : option (string * string) :=
  match fuel with
  | O => None
  | S fuel =>
      match s with
      | EmptyString => None
      | String c r =>
          if Ascii.eqb c dquote then Some (EmptyString, r)
          else if Ascii.eqb c backslash then
            match r with
            | String e r1 =>
                let simple (x : ascii) :=
                  '(t, r2) ← parse_chars fuel r1; Some (String x t, r2) in
                if Ascii.eqb e dquote then simple dquote
                else if Ascii.eqb e backslash then simple backslash
                else match e with
                | "/"%char => simple "/"%char
                | "b"%char => simple "008"%char
                | "f"%char => simple "012"%char
                | "n"%char => simple "010"%char
                | "r"%char => simple "013"%char
                | "t"%char => simple "009"%char
                | "u"%char =>
                    '(u, r2) ← parse_hex4 r1;
                    '(t, r3) ← parse_chars fuel r2;
                    Some (utf8 u +:+ t, r3)
                | _ => None
                end
            | EmptyString => None
            end
          else if (Ascii.N_of_ascii c <? 32)%N then None
          else '(t, r1) ← parse_chars fuel r; Some (String c t, r1)
      end
  end.

Definition expect (lit : string) (v : JsValue) (s : string)
  : option (JsValue * string) :=
  if String.prefix lit s
  then Some (v, String.substring (String.length lit)
                  (String.length s - String.length lit) s)
  else None.

Fixpoint parse_value (fuel : nat) (s : string) : option (JsValue * string) :=
  match fuel with
  | O => None
  | S fuel =>
      match skip_ws s with
      | EmptyString => None
      | String c r =>
          if Ascii.eqb c dquote then
            '(t, r1) ← parse_chars (S (String.length r)) r; Some (JStr t, r1)
          else match c with
          | "n"%char => expect "null" JNull (String c r)
          | "t"%char => expect "true" (JBool true) (String c r)
          | "f"%char => expect "false" (JBool false) (String c r)
          | "["%char =>
              match skip_ws r with
              | String "]"%char r1 => Some (JArr [], r1)
              | _ => '(vs, r1) ← parse_elements fuel r; Some (JArr vs, r1)
              end
          | "{"%char =>
              match skip_ws r with
              | String "}"%char r1 => Some (JObj ∅, r1)
              | _ => '(m, r1) ← parse_members fuel ∅ r; Some (JObj m, r1)
              end
          | _ => parse_number (String c r)
          end
      end
  end
with parse_elements (fuel : nat) (s : string)
  : option (list JsValue * string) :=
  match fuel with
  | O => None
  | S fuel =>
      '(v, r) ← parse_value fuel s;
      match skip_ws r with
      | String ","%char r1 =>
          '(vs, r2) ← parse_elements fuel r1; Some (v :: vs, r2)
      | String "]"%char r1 => Some ([v], r1)
      | _ => None
      end
  end
with parse_members (fuel : nat) (acc : gmap string JsValue) (s : string)
  : option (gmap string JsValue * string) :=
  match fuel with
  | O => None
  | S fuel =>
      match skip_ws s with
      | String c r =>
          if Ascii.eqb c dquote then
            '(k, r1) ← parse_chars (S (String.length r)) r;
            match skip_ws r1 with
            | String ":"%char r2 =>
                '(v, r3) ← parse_value fuel r2;
                match skip_ws r3 with
                | String ","%char r4 => parse_members fuel (<[k:=v]> acc) r4
                | String "}"%char r4 => Some (<[k:=v]> acc, r4)
                | _ => None
                end
            | _ => None
            end
          else None
      | EmptyString => None
      end
  end.

(** [JSON.parse(text)]: one value, surrounded by optional white space;
    anything else raises a SyntaxError. *)
Definition parse (text : string) : Completion JsValue :=
  match parse_value (S (String.length text)) text with
  | Some (v, rest) =>
      match skip_ws rest with
      | EmptyString => Normal v
      | _ => Throw "SyntaxError"
      end
  | None => Throw "SyntaxError"
  end.

End Json.

(** ** Data model *)

Abbreviation AnalyticsEvent := (gmap string JsValue).
Abbreviation Batch := (list (gmap string JsValue)).

(** [AnalyticsConfig], as the caller supplies it.  [None] is a property
    that is missing (or nullish) at run time. *)
Record AnalyticsConfig := mkAnalyticsConfig {
  endpoint : option string;
  enabled : option bool;
  batchSize : option Z;
  batchTimeout : option Z;
  maxRetries : option Z;
  context : option (gmap string JsValue);
}.

(** [this.config]: every optional field resolved; the endpoint is stored
    as it came. *)
Record Config := mkConfig {
  config_endpoint : option string;
  config_enabled : bool;
  config_batchSize : Z;
  config_batchTimeout : Z;
  config_maxRetries : Z;
  config_context : gmap string JsValue;
}.

(** The private fields of [class Analytics]. *)
Record Analytics := mkAnalytics {
  config : Config;
  eventQueue : list (gmap string JsValue);
  sessionId : string;
  flushTimer : option Z;          (* the armed interval and its period *)
  isFlushingInProgress : bool;
  failedBatches : list (list (gmap string JsValue));
}.

Definition set_eventQueue (q : Batch) (a : Analytics) : Analytics :=
  mkAnalytics (config a) q (sessionId a) (flushTimer a)
    (isFlushingInProgress a) (failedBatches a).
Definition set_flushTimer (t : option Z) (a : Analytics) : Analytics :=
  mkAnalytics (config a) (eventQueue a) (sessionId a) t
    (isFlushingInProgress a) (failedBatches a).
Definition set_isFlushingInProgress (b : bool) (a : Analytics) : Analytics :=
  mkAnalytics (config a) (eventQueue a) (sessionId a) (flushTimer a)
    b (failedBatches a).
Definition set_failedBatches (f : list Batch) (a : Analytics) : Analytics :=
  mkAnalytics (config a) (eventQueue a) (sessionId a) (flushTimer a)
    (isFlushingInProgress a) f.

(** The global [navigator], when there is one. *)
Record Navigator := mkNavigator {
  navigator_userAgent : string;
  navigator_sendBeacon : option bool;   (* None: no sendBeacon; Some sent *)
}.

(** What the host answers when the code consults it. *)
Record Host := mkHost {
  Date_now : Z;
  Math_random : string;     (* Math.random().toString(36).substring(2, 11) *)
  navigator : option Navigator;          (* None: navigator is undefined *)
  XMLHttpRequest_defined : bool;
  window_defined : bool;
  document_defined : bool;
}.

(** The state machine of one [sendBatch(batch)] call, retries included. *)
Inductive Phase :=
| Attempting                    (* suspended at [await fetch(...)] *)
| RetryScheduled (delay : Z)    (* suspended at the backoff [setTimeout] *)
| Succeeded
| Exhausted.

(** Who awaits the call, that is, what runs when its promise resolves. *)
Inductive Caller :=
| ByFlush                                   (* [flush]: the [finally] block *)
| ByRetryFailedBatches (rest : list Batch). (* the remaining loop iterations *)

Record SendTask := mkSendTask {
  batch : list (gmap string JsValue);
  retryCount : nat;
  phase : Phase;
  caller : Caller;
}.

(** Calls into the host that leave the instance. *)
Inductive Effect :=
| Fetch (url : option string) (body : Batch)
| SetTimeout (delay : Z)
| SendBeacon (url : option string) (body : Batch)
| XhrSend (url : option string) (body : Batch)
| SetInterval (period : Z)
| ClearInterval.

Record World := mkWorld {
  this : Analytics;
  tasks : list SendTask;          (* every sendBatch call made so far *)
  effects : list Effect;          (* host calls, oldest first *)
  unloadHandlers : bool;          (* pagehide and beforeunload listeners *)
  visibilityHandler : bool;       (* visibilitychange listener *)
}.

Definition with_this (f : Analytics → Analytics) (w : World) : World :=
  mkWorld (f (this w)) (tasks w) (effects w) (unloadHandlers w)
    (visibilityHandler w).
Definition add_task (t : SendTask) (w : World) : World :=
  mkWorld (this w) (tasks w ++ [t]) (effects w) (unloadHandlers w)
    (visibilityHandler w).
Definition set_task (i : nat) (t : SendTask) (w : World) : World :=
  mkWorld (this w) (<[i:=t]> (tasks w)) (effects w) (unloadHandlers w)
    (visibilityHandler w).
Definition add_effect (e : Effect) (w : World) : World :=
  mkWorld (this w) (tasks w) (effects w ++ [e]) (unloadHandlers w)
    (visibilityHandler w).

Definition set_phase (p : Phase) (t : SendTask) : SendTask :=
  mkSendTask (batch t) (retryCount t) p (caller t).

(** The operations of the class and the events of the host. *)
Inductive Op :=
| CallTrackEvent (metricName : string)
    (value contentId attributes experimentGroup : JsValue) (h : Host)
| CallFlush
| CallRetryFailedBatches
| CallClear
| CallDestroy
| TimerTick
| PageHide (h : Host)
| BeforeUnload (h : Host)
| VisibilityChange (hidden : bool)
| FetchSettled (i : nat) (ok : bool)
| TimeoutElapsed (i : nat).

(** ** The class *)

Section Analytics.

(** The host's [JSON.parse]. *)
Variable JSON_parse : string → Completion JsValue.

Definition generateSessionId (h : Host) : string :=
  pretty (Date_now h) +:+ "-" +:+ Math_random h.

(** [{ ...target, ...source }] with [source] spread last. *)
Definition spread (target source : gmap string JsValue) : gmap string JsValue :=
  source ∪ target.

(** [sendBatch(batch)] up to its first suspension: the POST is issued and
    the call waits for the response. *)
Definition sendBatch (b : Batch) (c : Caller) (w : World) : World :=
  add_effect (Fetch (config_endpoint (config (this w))) b)
    (add_task (mkSendTask b 0 Attempting c) w).

(** Flush events asynchronously. *)
Definition flush (w : World) : World :=
  if (length (eventQueue (this w)) =? 0)%nat || isFlushingInProgress (this w)
  then w
  else
    let w1 := with_this (set_isFlushingInProgress true) w in
    let batch := eventQueue (this w1) in
    let w2 := with_this (set_eventQueue []) w1 in
    sendBatch batch ByFlush w2.

(** The continuation of whoever awaited a [sendBatch] call. *)
Definition settle (c : Caller) (w : World) : World :=
  match c with
  | ByFlush => with_this (set_isFlushingInProgress false) w
  | ByRetryFailedBatches [] => w
  | ByRetryFailedBatches (b :: rest) => sendBatch b (ByRetryFailedBatches rest) w
  end.

(** [sendBatch] resumed with the outcome of its [fetch]: [ok = false]
    stands for a rejected fetch, a non-2xx response or a throwing
    [JSON.stringify], which all land in the [catch] block. *)
Definition fetchSettled (i : nat) (ok : bool) (w : World) : World :=
  match tasks w !! i with
  | Some t =>
      match phase t with
      | Attempting =>
          if ok then settle (caller t) (set_task i (set_phase Succeeded t) w)
          else if Z.of_nat (retryCount t) <? config_maxRetries (config (this w))
          then
            let delay := 2 ^ Z.of_nat (retryCount t) * 1000 in
            add_effect (SetTimeout delay)
              (set_task i (set_phase (RetryScheduled delay) t) w)
          else
            settle (caller t)
              (set_task i (set_phase Exhausted t)
                 (with_this
                    (λ a, set_failedBatches (failedBatches a ++ [batch t]) a)
                    w))
      | _ => w
      end
  | None => w
  end.

(** The backoff timer fires: [return this.sendBatch(batch, retryCount + 1)]. *)
Definition timeoutElapsed (i : nat) (w : World) : World :=
  match tasks w !! i with
  | Some t =>
      match phase t with
      | RetryScheduled _ =>
          add_effect (Fetch (config_endpoint (config (this w))) (batch t))
            (set_task i
               (mkSendTask (batch t) (S (retryCount t)) Attempting (caller t))
               w)
      | _ => w
      end
  | None => w
  end.

(** Flush events synchronously, for page unload. *)
Definition flushSync (h : Host) (w : World) : World :=
  if (length (eventQueue (this w)) =? 0)%nat then w
  else
    let batch := eventQueue (this w) in
    let w1 := with_this (set_eventQueue []) w in
    match navigator h ≫= navigator_sendBeacon with
    | Some sent =>
        add_effect (SendBeacon (config_endpoint (config (this w1))) batch) w1
    | None =>
        (* new XMLHttpRequest() inside try/catch *)
        if XMLHttpRequest_defined h
        then add_effect (XhrSend (config_endpoint (config (this w1))) batch) w1
        else w1
    end.

(** The [attributes] argument, normalised. *)
Definition parseAttributes (attributes : JsValue) : Completion JsValue :=
  if truthy attributes then
    match attributes with
    | JStr s =>
        try_catch (JSON_parse s) (λ _, Normal (JObj {[ "raw" := JStr s ]}))
    | _ => Normal attributes
    end
  else Normal (JObj ∅).

Definition userAgent (h : Host) : string :=
  match navigator h with
  | Some n => navigator_userAgent n
  | None => "unknown"
  end.

(** The object literal of [trackEvent]. *)
Definition buildEvent (a : Analytics) (h : Host) (metricName : string)
    (value contentId parsedAttributes experimentGroup : JsValue)
  : gmap string JsValue :=
  spread
    {[ "timestamp" := JNum (Date_now h) 0;
       "metricName" := JStr metricName;
       "value" := value;
       "contentId" := contentId;
       "attributes" := parsedAttributes;
       "experimentGroup" := experimentGroup;
       "sessionId" := JStr (sessionId a);
       "userAgent" := JStr (userAgent h) ]}
    (config_context (config a)).

(** [this.eventQueue.push(event)] and the size trigger. *)
Definition enqueue (event : gmap string JsValue) (w : World) : World :=
  let w1 := with_this (λ a, set_eventQueue (eventQueue a ++ [event]) a) w in
  if Z.of_nat (length (eventQueue (this w1))) >=? config_batchSize (config (this w1))
  then flush w1
  else w1.

(** Track an analytics event. *)
Definition trackEvent (metricName : string)
    (value contentId attributes experimentGroup : JsValue) (h : Host)
    (w : World) : Completion World :=
  if negb (config_enabled (config (this w))) then Normal w
  else
    try_catch
      (parsedAttributes ← parseAttributes attributes;
       let event := buildEvent (this w) h metricName value contentId
                      parsedAttributes experimentGroup in
       Normal (enqueue event w))
      (λ _, Normal w).

Definition retryFailedBatches (w : World) : World :=
  let batches := failedBatches (this w) in
  settle (ByRetryFailedBatches batches) (with_this (set_failedBatches []) w).

(** Clear all queued events. *)
Definition clear (w : World) : World :=
  with_this (set_failedBatches []) (with_this (set_eventQueue []) w).

Definition destroy (w : World) : World :=
  let w1 :=
    match flushTimer (this w) with
    | Some _ => with_this (set_flushTimer None) (add_effect ClearInterval w)
    | None => w
    end in
  flush w1.

Definition startFlushTimer (w : World) : World :=
  let w1 :=
    match flushTimer (this w) with
    | Some _ => add_effect ClearInterval w
    | None => w
    end in
  let period := config_batchTimeout (config (this w1)) in
  with_this (set_flushTimer (Some period)) (add_effect (SetInterval period) w1).

Definition setupUnloadHandler (h : Host) (w : World) : World :=
  if negb (window_defined h) then w
  else mkWorld (this w) (tasks w) (effects w) true (document_defined h).

Definition constructor (c : AnalyticsConfig) (h : Host) : Completion World :=
  let cfg :=
    {| config_endpoint := endpoint c;
       config_enabled := default true (enabled c);
       config_batchSize := default 25 (batchSize c);
       config_batchTimeout := default 30000 (batchTimeout c);
       config_maxRetries := default 3 (maxRetries c);
       config_context := default ∅ (context c) |} in
  let w :=
    {| this := {| config := cfg; eventQueue := [];
                  sessionId := generateSessionId h; flushTimer := None;
                  isFlushingInProgress := false; failedBatches := [] |};
       tasks := []; effects := [];
       unloadHandlers := false; visibilityHandler := false |} in
  Normal (if config_enabled cfg
          then setupUnloadHandler h (startFlushTimer w)
          else w).

Definition getFailedBatches (w : World) : list Batch := failedBatches (this w).
Definition getQueueSize (w : World) : nat := length (eventQueue (this w)).
Definition getSessionId (w : World) : string := sessionId (this w).

(** The callback of [setInterval]. *)
Definition timerTick (w : World) : World :=
  match flushTimer (this w) with
  | Some _ =>
      if (0 <? length (eventQueue (this w)))%nat then flush w else w
  | None => w
  end.

(** One turn of the event loop. *)
Definition step (w : World) (op : Op) : World :=
  match op with
  | CallTrackEvent m v c a g h =>
      match trackEvent m v c a g h w with
      | Normal w' => w'
      | Throw _ => w
      end
  | CallFlush => flush w
  | CallRetryFailedBatches => retryFailedBatches w
  | CallClear => clear w
  | CallDestroy => destroy w
  | TimerTick => timerTick w
  | PageHide h | BeforeUnload h =>
      if unloadHandlers w then flushSync h w else w
  | VisibilityChange hidden =>
      if visibilityHandler w && hidden then flush w else w
  | FetchSettled i ok => fetchSettled i ok w
  | TimeoutElapsed i => timeoutElapsed i w
  end.

Definition run (w : World) (ops : list Op) : World := foldl step w ops.

End Analytics.
(** The event [e] was pushed on the queue of [w], giving [w']: it is the
    last element of the queue, or the size trigger has already taken the
    whole queue, [e] last, as the batch of a new asynchronous send. *)
Definition enqueued (e : gmap string JsValue) (w w' : World) : Prop :=
  (eventQueue (this w') = eventQueue (this w) ++ [e] ∧ tasks w' = tasks w) ∨
  (eventQueue (this w') = [] ∧
   tasks w' = tasks w ++ [mkSendTask (eventQueue (this w) ++ [e]) 0 Attempting ByFlush]).

(** The field names that [trackEvent] itself writes. *)
Definition reserved_fields : list string :=
  ["timestamp"; "metricName"; "value"; "contentId"; "attributes";
   "experimentGroup"; "sessionId"; "userAgent"].

(** A [sendBatch] call that has not resolved yet. *)
Definition active (p : Phase) : bool :=
  match p with
  | Attempting | RetryScheduled _ => true
  | Succeeded | Exhausted => false
  end.

Definition by_flush (c : Caller) : bool :=
  match c with
  | ByFlush => true
  | ByRetryFailedBatches _ => false
  end.

(** The send of a [flush] that is still in flight. *)
Definition flush_in_flight (t : SendTask) : bool :=
  active (phase t) && by_flush (caller t).

Fixpoint count_if {A} (f : A → bool) (l : list A) : nat :=
  match l with
  | [] => 0
  | x :: r => Nat.b2n (f x) + count_if f r
  end.

(** The busy flag is set exactly while one send of [flush] is in flight. *)
Definition busy_flag_invariant (w : World) : Prop :=
  count_if flush_in_flight (tasks w) = Nat.b2n (isFlushingInProgress (this w)).

(** The batches taken from the queue by [flush], oldest first. *)
Definition flush_batches (w : World) : list Batch :=
  omap (λ t, if by_flush (caller t) then Some (batch t) else None) (tasks w).

(** The operations that take events out of the queue without [flush]:
    [clear] discards them, the unload handlers send them synchronously. *)
Definition async_op (op : Op) : bool :=
  match op with
  | CallClear | PageHide _ | BeforeUnload _ => false
  | _ => true
  end.

(** [k] failed attempts of send [i], each followed by its backoff delay. *)
Definition retry_rounds (i : nat) (k : nat) : list Op :=
  concat (replicate k [FetchSettled i false; TimeoutElapsed i]).

(** The host calls of [k] such rounds, starting at retry count [r]. *)
Definition backoff_effects (url : option string) (b : Batch) (r k : nat)
  : list Effect :=
  flat_map (λ n, [SetTimeout (2 ^ Z.of_nat n * 1000); Fetch url b]) (seq r k).

(** The states an instance can be in: built by the constructor, then
    driven by any operations and host events. *)
Definition reachable (JSON_parse : string → Completion JsValue) (w : World)
  : Prop :=
  ∃ c h w0 ops, constructor c h = Normal w0 ∧ w = run JSON_parse w0 ops.

(** The event that an operation pushes on the queue, if any. *)
Definition tracked_event (JSON_parse : string → Completion JsValue)
    (a : Analytics) (op : Op) : option (gmap string JsValue) :=
  match op with
  | CallTrackEvent m v c at_ g h =>
      if config_enabled (config a) then
        match parseAttributes JSON_parse at_ with
        | Normal pa => Some (buildEvent a h m v c pa g)
        | Throw _ => None
        end
      else None
  | _ => None
  end.

(** Everything [flush] has taken from the queue so far, followed by what
    is still queued. *)
Definition taken_and_queued (w : World) : list (gmap string JsValue) :=
  concat (flush_batches w) ++ eventQueue (this w).

(** ** Runs of calls and what they preserve *)

Definition is_track (op : Op) : bool :=
  match op with
  | CallTrackEvent _ _ _ _ _ _ => true
  | _ => false
  end.

(** The responses to [n] sends in a row, the first being send [first]:
    each one settles at its first attempt. *)
Fixpoint settle_each (ok : bool) (first n : nat) : list Op :=
  match n with
  | O => []
  | S n => FetchSettled first ok :: settle_each ok (S first) n
  end.

(** The same with an endpoint that is down: every attempt of every send
    fails, through [m] retries. *)
Fixpoint exhaust_each (m first n : nat) : list Op :=
  match n with
  | O => []
  | S n =>
      retry_rounds first m ++ FetchSettled first false
        :: exhaust_each m (S first) n
  end.

(** The batches a caller still has to send. *)
Definition pending (c : Caller) : list Batch :=
  match c with
  | ByFlush => []
  | ByRetryFailedBatches rest => rest
  end.

(** [P] holds of every event the instance holds: queued, in a send, waiting
    for resubmission, or archived. *)
Definition every_event (P : gmap string JsValue → Prop) (w : World) : Prop :=
  Forall P (eventQueue (this w)) ∧
  Forall (Forall P) (failedBatches (this w)) ∧
  Forall (λ t, Forall P (batch t) ∧ Forall (Forall P) (pending (caller t)))
    (tasks w).

(** A send has used no more retries than allowed, and a scheduled retry
    waits the delay of its retry count. *)
Definition attempts_bounded (maxRetries : Z) (t : SendTask) : Prop :=
  Z.of_nat (retryCount t) <= Z.max 0 maxRetries ∧
  ∀ d, phase t = RetryScheduled d →
       d = 2 ^ Z.of_nat (retryCount t) * 1000 ∧
       Z.of_nat (retryCount t) < maxRetries.

(** The batch that a host call carries, if any. *)
Definition body (e : Effect) : option Batch :=
  match e with
  | Fetch _ b | SendBeacon _ b | XhrSend _ b => Some b
  | SetTimeout _ | SetInterval _ | ClearInterval => None
  end.

(** No batch the instance holds or has handed to the host is empty. *)
Definition no_empty_batch (w : World) : Prop :=
  Forall (λ b, b ≠ []) (failedBatches (this w)) ∧
  Forall (λ t, batch t ≠ [] ∧ Forall (λ b, b ≠ []) (pending (caller t)))
    (tasks w) ∧
  Forall (λ e, body e ≠ Some []) (effects w).

(** ** The module-level singleton

    [let analyticsInstance: Analytics | null] and the exported wrappers.
    An instance that [initializeAnalytics] replaces is destroyed but lives
    on (its sends and listeners are not cancelled): it is kept in
    [replaced]. *)
Record Singleton := mkSingleton {
  analyticsInstance : option World;
  replaced : list World;
}.

Module Exported.
Section Exported.

Variable JSON_parse : string → Completion JsValue.

Definition initializeAnalytics (c : AnalyticsConfig) (h : Host) (s : Singleton)
  : Completion Singleton :=
  let old :=
    match analyticsInstance s with
    | Some w => replaced s ++ [destroy w]
    | None => replaced s
    end in
  w ← constructor c h;
  Normal (mkSingleton (Some w) old).

Definition getAnalyticsInstance (s : Singleton) : option World :=
  analyticsInstance s.

Definition trackEvent (metricName : string)
    (value contentId attributes experimentGroup : JsValue) (h : Host)
    (s : Singleton) : Completion Singleton :=
  match analyticsInstance s with
  | None => Normal s
  | Some w =>
      w' ← trackEvent JSON_parse metricName value contentId attributes
             experimentGroup h w;
      Normal (mkSingleton (Some w') (replaced s))
  end.

Definition flushEvents (s : Singleton) : Singleton :=
  match analyticsInstance s with
  | None => s
  | Some w => mkSingleton (Some (flush w)) (replaced s)
  end.

Definition getSessionId (s : Singleton) : option string :=
  getSessionId <$> analyticsInstance s.

Definition getQueueSize (s : Singleton) : nat :=
  default 0%nat (getQueueSize <$> analyticsInstance s).

End Exported.
End Exported.

(** ** The wrapper class [CSVAnalytics]

    The first class of the file.  Its [flush], [flushSync], [sendBatch],
    [retryFailedBatches], [clear] and [destroy] are the ones above, with
    [firehoseUrl] for [endpoint] and [flushInterval] for [batchTimeout];
    its constructor, its unload handler and [emitMetric] differ. *)
Module CSV.

Record CSVAnalyticsConfig := mkCSVAnalyticsConfig {
  firehoseUrl : option string;
  batchSize : option Z;
  flushInterval : option Z;
  maxRetries : option Z;
  enabled : option bool;
}.

(** The constants imported from ['../utils']; that module is not part of
    the sources, so they are taken as given. *)
Record Utils := mkUtils {
  device : JsValue;
  deviceCodename : JsValue;
  lang : JsValue;
  connected : JsValue;
  banyan : JsValue;
  simplified : JsValue;
  retailer : JsValue;
  gitCommitSha : JsValue;
  gitBranch : JsValue;
  isVegaPlatform : JsValue;
}.

Section CSVAnalytics.

Variable JSON_parse : string → Completion JsValue.
Variable utils : Utils.

(** [document.addEventListener] is not guarded here: with a [window] but
    no [document] the reference raises. *)
Definition setupUnloadHandler (h : Host) (w : World) : Completion World :=
  if negb (window_defined h) then Normal w
  else if document_defined h
       then Normal (mkWorld (this w) (tasks w) (effects w) true true)
       else Throw "ReferenceError".

Definition constructor (c : CSVAnalyticsConfig) (h : Host) : Completion World :=
  let cfg :=
    {| config_endpoint := firehoseUrl c;
       config_enabled := default true (enabled c);
       config_batchSize := default 25 (batchSize c);
       config_batchTimeout := default 30000 (flushInterval c);
       config_maxRetries := default 3 (maxRetries c);
       config_context := ∅ |} in
  let w :=
    {| this := {| config := cfg; eventQueue := [];
                  sessionId := generateSessionId h; flushTimer := None;
                  isFlushingInProgress := false; failedBatches := [] |};
       tasks := []; effects := [];
       unloadHandlers := false; visibilityHandler := false |} in
  if config_enabled cfg
  then setupUnloadHandler h (startFlushTimer w)
  else Normal w.

(** [metricAttributes?: string], normalised. *)
Definition parseMetricAttributes (metricAttributes : option string)
  : Completion JsValue :=
  match metricAttributes with
  | Some s =>
      if truthy (JStr s) then
        try_catch (JSON_parse s) (λ _, Normal (JObj {[ "raw" := JStr s ]}))
      else Normal (JObj ∅)
  | None => Normal (JObj ∅)
  end.

(** The object literal of [emitMetric]; [iso] is
    [new Date().toISOString()]. *)
Definition buildMetricEvent (a : Analytics) (h : Host) (iso : string)
    (name : string) (value demoContentId parsedAttributes
                     demoExperimentGroup : JsValue)
  : gmap string JsValue :=
  list_to_map
    [ ("timestamp", JStr iso);
      ("metricName", JStr name);
      ("value", value);
      ("demoContentId", demoContentId);
      ("metricAttributes", parsedAttributes);
      ("demoExperimentGroup", demoExperimentGroup);
      ("device", device utils);
      ("deviceCodename", deviceCodename utils);
      ("language", lang utils);
      ("connected", connected utils);
      ("banyan", banyan utils);
      ("simplified", simplified utils);
      ("retailer", retailer utils);
      ("gitCommitSha", gitCommitSha utils);
      ("gitBranch", gitBranch utils);
      ("isVegaPlatform", isVegaPlatform utils);
      ("sessionId", JStr (sessionId a));
      ("userAgent", JStr (userAgent h)) ].

Definition emitMetric (name : string) (value demoContentId : JsValue)
    (metricAttributes : option string) (demoExperimentGroup : JsValue)
    (h : Host) (iso : string) (w : World) : Completion World :=
  if negb (config_enabled (config (this w))) then Normal w
  else
    try_catch
      (parsedAttributes ← parseMetricAttributes metricAttributes;
       let event := buildMetricEvent (this w) h iso name value demoContentId
                      parsedAttributes demoExperimentGroup in
       Normal (enqueue event w))
      (λ _, Normal w).

End CSVAnalytics.

(** The columns of a CSV metric event. *)
Definition columns : list string :=
  ["timestamp"; "metricName"; "value"; "demoContentId"; "metricAttributes";
   "demoExperimentGroup"; "device"; "deviceCodename"; "language";
   "connected"; "banyan"; "simplified"; "retailer"; "gitCommitSha";
   "gitBranch"; "isVegaPlatform"; "sessionId"; "userAgent"].

End CSV.

(** ** Concrete instances

    The states at which the results below are evaluated. *)
Module Scenario.

Definition host : Host :=
  {| Date_now := 1700000000000; Math_random := "k3j9x2m1q";
     navigator := Some (mkNavigator "Mozilla/5.0" (Some true));
     XMLHttpRequest_defined := true;
     window_defined := true; document_defined := true |}.

Definition url : string := "https://example.test/events".

(** [{endpoint, batchSize: 2}] *)
Definition given_two : AnalyticsConfig :=
  mkAnalyticsConfig (Some url) None (Some 2) None None None.

(** [{}]: no endpoint. *)
Definition given_no_endpoint : AnalyticsConfig :=
  mkAnalyticsConfig None None None None None None.

(** [{endpoint, context: {attributes: "from-context"}}] *)
Definition given_context : AnalyticsConfig :=
  mkAnalyticsConfig (Some url) None None None None
    (Some {[ "attributes" := JStr "from-context" ]}).

(** The instances the constructor builds from them. *)
Definition instance (c : Config) : World :=
  {| this := {| config := c; eventQueue := [];
                sessionId := "1700000000000-k3j9x2m1q";
                flushTimer := Some 30000;
                isFlushingInProgress := false; failedBatches := [] |};
     tasks := []; effects := [SetInterval 30000];
     unloadHandlers := true; visibilityHandler := true |}.

Definition w_two : World :=
  instance (mkConfig (Some url) true 2 30000 3 ∅).

Definition w_context : World :=
  instance (mkConfig (Some url) true 25 30000 3
              {[ "attributes" := JStr "from-context" ]}).

(** [trackEvent("Click", undefined, id)] *)
Definition click (id : string) : Op :=
  CallTrackEvent "Click" JUndefined (JStr id) JUndefined JUndefined host.

(** Two clicks fill the batch of [w_two]: its flush is in flight. *)
Definition in_flight : list Op := [click "btn-1"; click "btn-2"].

Definition fail_and_wait : list Op := [FetchSettled 0 false; TimeoutElapsed 0].

(** A host with neither [navigator] nor [XMLHttpRequest]. *)
Definition bare_host : Host :=
  {| Date_now := 1700000000000; Math_random := "k3j9x2m1q";
     navigator := None; XMLHttpRequest_defined := false;
     window_defined := true; document_defined := true |}.

(** The [contentId] of each event of a batch. *)
Definition contentIds (b : list (gmap string JsValue)) : list (option JsValue) :=
  map (λ e : gmap string JsValue, e !! "contentId") b.

(** [{endpoint, batchSize: 2, maxRetries: 1}], constructed. *)
Definition w_one_retry : World :=
  instance (mkConfig (Some url) true 2 30000 1 ∅).

(** The record that such a click produces, and the batch of two. *)
Definition click_event (id : string) : gmap string JsValue :=
  buildEvent (this w_one_retry) host "Click" JUndefined (JStr id) (JObj ∅)
    JUndefined.

Definition two_clicks : list (gmap string JsValue) :=
  [click_event "btn-1"; click_event "btn-2"].

End Scenario.

(** Further instances. *)
Module MoreScenario.
Import Scenario.

(** [{endpoint, enabled: false}] *)
Definition given_disabled : AnalyticsConfig :=
  mkAnalyticsConfig (Some url) (Some false) None None None None.

(** [{endpoint}], constructed: every default. *)
Definition w_default : World :=
  instance (mkConfig (Some url) true 25 30000 3 ∅).

Definition three_clicks : list Op :=
  [click "btn-3"; click "btn-4"; click "btn-5"].

(** A host without [sendBeacon]. *)
Definition old_host : Host :=
  {| Date_now := 1700000000000; Math_random := "k3j9x2m1q";
     navigator := Some (mkNavigator "Mozilla/4.0" None);
     XMLHttpRequest_defined := true;
     window_defined := true; document_defined := true |}.

Definition no_utils : CSV.Utils :=
  CSV.mkUtils JNull JNull JNull JNull JNull JNull JNull JNull JNull JNull.

End MoreScenario.

(** ** Properties *)

Section Properties.

Variable JSON_parse : string → Completion JsValue.

Lemma parseAttributes_total (a : JsValue) :
  ∃ pa, parseAttributes JSON_parse a = Normal pa.
Proof.
  unfold parseAttributes. destruct (truthy a); [|eauto].
  destruct a; eauto. destruct (JSON_parse s); simpl; eauto.
Qed.

Lemma trackEvent_enabled m v c a g h w pa :
  config_enabled (config (this w)) = true →
  parseAttributes JSON_parse a = Normal pa →
  trackEvent JSON_parse m v c a g h w
  = Normal (enqueue (buildEvent (this w) h m v c pa g) w).
Proof.
  intros Hen Hpa. unfold trackEvent. rewrite Hen, Hpa. reflexivity.
Qed.

Lemma enqueue_enqueued e w : enqueued e w (enqueue e w).
Proof.
  unfold enqueued, enqueue, flush. simpl.
  destruct (_ >=? _); [|by left].
  rewrite length_app. simpl.
  replace (length (eventQueue (this w)) + 1 =? 0)%nat with false
    by (symmetry; apply Nat.eqb_neq; lia).
  simpl. destruct (isFlushingInProgress (this w)); [by left | by right].
Qed.

Lemma buildEvent_context a h m v c pa g k x :
  config_context (config a) !! k = Some x →
  buildEvent a h m v c pa g !! k = Some x.
Proof. intros H. unfold buildEvent, spread. by apply lookup_union_Some_l. Qed.

Lemma buildEvent_attributes a h m v c pa g :
  config_context (config a) !! "attributes" = None →
  buildEvent a h m v c pa g !! "attributes" = Some pa.
Proof.
  intros H. unfold buildEvent, spread.
  rewrite lookup_union_r by done. by simplify_map_eq.
Qed.

(** C8: [clear()] empties the pending queue as well as the failed-batch
    archive: from every state, the queue length is 0 and the archive is
    empty afterwards, so the queued but unsent events are discarded along
    with the archived batches (no send is issued for them). *)
Theorem clear_empties_queue_and_archive (w : World) :
  getQueueSize (clear w) = 0%nat ∧
  eventQueue (this (clear w)) = [] ∧
  getFailedBatches (clear w) = [] ∧
  tasks (clear w) = tasks w ∧
  effects (clear w) = effects w ∧
  step JSON_parse w CallClear = clear w.
Proof. repeat split. Qed.

(** C5 (amended): the constructor never raises, whatever the endpoint: it
    validates nothing, stores the endpoint as it was given (missing
    included), resolves the defaults and returns an instance with an empty
    queue and an empty archive. *)
Theorem constructor_never_raises (c : AnalyticsConfig) (h : Host) :
  ∃ w, constructor c h = Normal w ∧
       ¬ raises (constructor c h) ∧
       config_endpoint (config (this w)) = endpoint c ∧
       config_enabled (config (this w)) = default true (enabled c) ∧
       config_batchSize (config (this w)) = default 25 (batchSize c) ∧
       config_maxRetries (config (this w)) = default 3 (maxRetries c) ∧
       eventQueue (this w) = [] ∧
       failedBatches (this w) = [].
Proof.
  unfold constructor. eexists. split; [reflexivity|].
  split; [intros [e He]; discriminate|].
  destruct c as [ep [[|]|] bs bt mr ctx]; simpl;
    unfold setupUnloadHandler; destruct (window_defined h); simpl;
    repeat split.
Qed.

(** C9: the context is spread last, so on every [trackEvent] call of an
    enabled instance a context key that collides with a reserved field
    name replaces that field's value in the event record that is
    enqueued. *)
Theorem context_overwrites_reserved_fields
    (w : World) (h : Host) (m : string) (v c a g : JsValue)
    (k : string) (x : JsValue) :
  config_enabled (config (this w)) = true →
  k ∈ reserved_fields →
  config_context (config (this w)) !! k = Some x →
  ∃ event w',
    trackEvent JSON_parse m v c a g h w = Normal w' ∧
    enqueued event w w' ∧
    event !! k = Some x.
Proof.
  intros Hen _ Hk. destruct (parseAttributes_total a) as [pa Hpa].
  eexists _, _. split; [by apply trackEvent_enabled|].
  split; [apply enqueue_enqueued|]. by apply buildEvent_context.
Qed.

(** C10 (amended): on an enabled instance whose context has no
    [attributes] key, [trackEvent] with the empty string as attributes
    enqueues an event whose attributes field is the empty mapping, not
    [{raw: ""}], and the call is the same as one with the argument
    absent. *)
Theorem empty_string_attributes_are_empty_mapping
    (w : World) (h : Host) (m : string) (v c g : JsValue) :
  config_enabled (config (this w)) = true →
  config_context (config (this w)) !! "attributes" = None →
  ∃ event w',
    trackEvent JSON_parse m v c (JStr "") g h w = Normal w' ∧
    enqueued event w w' ∧
    event !! "attributes" = Some (JObj ∅) ∧
    event !! "attributes" ≠ Some (JObj {[ "raw" := JStr "" ]}) ∧
    trackEvent JSON_parse m v c JUndefined g h w = Normal w'.
Proof.
  intros Hen Hctx. eexists _, _.
  split; [by apply trackEvent_enabled|].
  split; [apply enqueue_enqueued|].
  rewrite buildEvent_attributes by done.
  split; [done|]. split; [|by apply trackEvent_enabled].
  intros H. discriminate H.
Qed.

(** C7 (amended): on an enabled instance whose context has no
    [attributes] key, for every non-empty string that [JSON.parse]
    rejects, [trackEvent] does not raise and enqueues the event with
    attributes [{raw: <the string>}]. *)
Theorem unparsable_attributes_are_wrapped
    (w : World) (h : Host) (m : string) (v c g : JsValue) (s : string) :
  config_enabled (config (this w)) = true →
  config_context (config (this w)) !! "attributes" = None →
  s ≠ "" →
  raises (JSON_parse s) →
  ∃ event w',
    trackEvent JSON_parse m v c (JStr s) g h w = Normal w' ∧
    enqueued event w w' ∧
    event !! "attributes" = Some (JObj {[ "raw" := JStr s ]}).
Proof.
  intros Hen Hctx Hs [e He].
  assert (parseAttributes JSON_parse (JStr s)
          = Normal (JObj {[ "raw" := JStr s ]})) as Hpa.
  { unfold parseAttributes. simpl.
    apply String.eqb_neq in Hs. rewrite Hs. simpl. by rewrite He. }
  eexists _, _. split; [by apply trackEvent_enabled|].
  split; [apply enqueue_enqueued|]. by apply buildEvent_attributes.
Qed.

(** C6 (amended): on an enabled instance with no asynchronous flush in
    flight, the [trackEvent] call whose push makes the queue length reach
    [batchSize] starts the flush inside the call: the whole queue, the new
    event last, becomes the batch of a send whose POST is issued before
    [trackEvent] returns, and the queue is empty.  With a flush in flight
    the same call only appends the event. *)
Theorem size_trigger_flushes_when_idle
    (w : World) (h : Host) (m : string) (v c a g : JsValue) :
  config_enabled (config (this w)) = true →
  Z.of_nat (length (eventQueue (this w))) + 1
    >= config_batchSize (config (this w)) →
  ∃ event w',
    trackEvent JSON_parse m v c a g h w = Normal w' ∧
    (isFlushingInProgress (this w) = false →
       eventQueue (this w') = [] ∧
       isFlushingInProgress (this w') = true ∧
       tasks w' = tasks w ++
         [mkSendTask (eventQueue (this w) ++ [event]) 0 Attempting ByFlush] ∧
       effects w' = effects w ++
         [Fetch (config_endpoint (config (this w)))
                (eventQueue (this w) ++ [event])]) ∧
    (isFlushingInProgress (this w) = true →
       eventQueue (this w') = eventQueue (this w) ++ [event] ∧
       tasks w' = tasks w ∧
       effects w' = effects w).
Proof.
  intros Hen Hsz. destruct (parseAttributes_total a) as [pa Hpa].
  eexists _, _. split; [by apply trackEvent_enabled|].
  unfold enqueue, flush. simpl. rewrite length_app. simpl.
  replace (Z.of_nat (length (eventQueue (this w)) + 1) >=? _) with true
    by (symmetry; apply Z.geb_le; lia).
  replace (length (eventQueue (this w)) + 1 =? 0)%nat with false
    by (symmetry; apply Nat.eqb_neq; lia).
  simpl. split; intros ->; simpl; auto.
Qed.


(** *** Lists of sends *)

Lemma count_if_app {A} (f : A → bool) (l1 l2 : list A) :
  count_if f (l1 ++ l2) = (count_if f l1 + count_if f l2)%nat.
Proof. induction l1 as [|x l1 IH]; simpl; [done | rewrite IH; lia]. Qed.

Lemma count_if_insert {A} (f : A → bool) (l : list A) i x y :
  l !! i = Some x →
  (count_if f (<[i:=y]> l) + Nat.b2n (f x) = count_if f l + Nat.b2n (f y))%nat.
Proof.
  revert i. induction l as [|a l IH]; intros [|i] H; simplify_eq/=; [lia|].
  specialize (IH _ H). lia.
Qed.

Lemma omap_insert_same {A B} (f : A → option B) (l : list A) i x y :
  l !! i = Some x → f y = f x → omap f (<[i:=y]> l) = omap f l.
Proof.
  revert i. induction l as [|a l IH]; intros [|i] H E; simplify_eq/=.
  - by rewrite E.
  - by rewrite (IH _ H E).
Qed.

Lemma omap_ext_all {A B} (f g : A → option B) (l : list A) :
  (∀ x, f x = g x) → omap f l = omap g l.
Proof.
  intros H. induction l as [|x l IH]; csimpl; [done|]. by rewrite H, IH.
Qed.

Lemma nonempty_by_length {A} (l : list A) :
  (0 <? length l)%nat = true → l ≠ [].
Proof. by destruct l. Qed.

(** *** One resumption of a send *)

Lemma fetchSettled_retry (w : World) i t :
  tasks w !! i = Some t → phase t = Attempting →
  Z.of_nat (retryCount t) < config_maxRetries (config (this w)) →
  fetchSettled i false w
  = add_effect (SetTimeout (2 ^ Z.of_nat (retryCount t) * 1000))
      (set_task i
         (set_phase (RetryScheduled (2 ^ Z.of_nat (retryCount t) * 1000)) t) w).
Proof.
  intros Ht Hp Hlt. unfold fetchSettled. rewrite Ht, Hp.
  by apply Z.ltb_lt in Hlt as ->.
Qed.

Lemma fetchSettled_exhausted (w : World) i t :
  tasks w !! i = Some t → phase t = Attempting →
  config_maxRetries (config (this w)) <= Z.of_nat (retryCount t) →
  fetchSettled i false w
  = settle (caller t)
      (set_task i (set_phase Exhausted t)
         (with_this (λ a, set_failedBatches (failedBatches a ++ [batch t]) a) w)).
Proof.
  intros Ht Hp Hge. unfold fetchSettled. rewrite Ht, Hp.
  by apply Z.ltb_ge in Hge as ->.
Qed.

Lemma fetchSettled_ok (w : World) i t :
  tasks w !! i = Some t → phase t = Attempting →
  fetchSettled i true w = settle (caller t) (set_task i (set_phase Succeeded t) w).
Proof. intros Ht Hp. unfold fetchSettled. by rewrite Ht, Hp. Qed.

Lemma timeoutElapsed_retry (w : World) i t d :
  tasks w !! i = Some t → phase t = RetryScheduled d →
  timeoutElapsed i w
  = add_effect (Fetch (config_endpoint (config (this w))) (batch t))
      (set_task i (mkSendTask (batch t) (S (retryCount t)) Attempting (caller t)) w).
Proof. intros Ht Hp. unfold timeoutElapsed. by rewrite Ht, Hp. Qed.

(** A resolved send is never resumed. *)
Lemma resolved_is_final (w : World) i t :
  tasks w !! i = Some t → active (phase t) = false →
  (∀ ok, fetchSettled i ok w = w) ∧ timeoutElapsed i w = w.
Proof.
  intros Ht Hp. unfold fetchSettled, timeoutElapsed. rewrite Ht.
  by destruct (phase t).
Qed.

Lemma settle_failedBatches c w :
  failedBatches (this (settle c w)) = failedBatches (this w).
Proof. by destruct c as [|[|b r]]. Qed.

Lemma settle_lookup c w i t :
  tasks w !! i = Some t → tasks (settle c w) !! i = Some t.
Proof.
  intros H. destruct c as [|[|b r]]; simpl; try done.
  by apply lookup_app_l_Some.
Qed.

(** C4: after failed attempt number [n] of a send, with [n] below
    [maxRetries], the delay scheduled before the next attempt is exactly
    [2^n * 1000] ms, the archive is left alone, and when the delay elapses
    the next attempt posts the same batch, in the same order, as attempt
    [n + 1]. *)
Theorem backoff_delay_is_exponential
    (w : World) (i : nat) (t : SendTask) (n : nat) :
  tasks w !! i = Some t →
  phase t = Attempting →
  retryCount t = n →
  Z.of_nat n < config_maxRetries (config (this w)) →
  let delay := 2 ^ Z.of_nat n * 1000 in
  let w1 := fetchSettled i false w in
  let w2 := timeoutElapsed i w1 in
  tasks w1 !! i = Some (mkSendTask (batch t) n (RetryScheduled delay) (caller t)) ∧
  effects w1 = effects w ++ [SetTimeout delay] ∧
  failedBatches (this w1) = failedBatches (this w) ∧
  tasks w2 !! i = Some (mkSendTask (batch t) (S n) Attempting (caller t)) ∧
  effects w2 = effects w1 ++
    [Fetch (config_endpoint (config (this w))) (batch t)] ∧
  step JSON_parse w (FetchSettled i false) = w1 ∧
  step JSON_parse w1 (TimeoutElapsed i) = w2.
Proof.
  intros Ht Hp Hn Hlt. subst n. cbv zeta. cbn [step].
  pose proof (lookup_lt_Some _ _ _ Ht) as Hi.
  rewrite (fetchSettled_retry w i t) by done.
  set (delay := 2 ^ Z.of_nat (retryCount t) * 1000).
  set (w1 := add_effect _ _).
  assert (tasks w1 !! i
          = Some (mkSendTask (batch t) (retryCount t) (RetryScheduled delay) (caller t)))
    as H1 by (simpl; by rewrite list_lookup_insert_eq).
  rewrite (timeoutElapsed_retry w1 i _ delay H1 eq_refl).
  repeat split; try done. simpl.
  rewrite list_lookup_insert_eq; [done|]. by rewrite length_insert.
Qed.


(** *** A send through all its retries *)

Lemma run_app (w : World) (ops1 ops2 : list Op) :
  run JSON_parse w (ops1 ++ ops2) = run JSON_parse (run JSON_parse w ops1) ops2.
Proof. apply foldl_app. Qed.

(** [k] failed attempts in a row, while retries remain, change nothing but
    the retry count of the send and the log of host calls. *)
Lemma run_retry_rounds (i k : nat) :
  ∀ (w : World) (t : SendTask),
    tasks w !! i = Some t →
    phase t = Attempting →
    Z.of_nat (retryCount t + k) <= config_maxRetries (config (this w)) →
    run JSON_parse w (retry_rounds i k)
    = mkWorld (this w)
        (<[i := mkSendTask (batch t) (retryCount t + k) Attempting (caller t)]>
           (tasks w))
        (effects w ++
           backoff_effects (config_endpoint (config (this w))) (batch t)
             (retryCount t) k)
        (unloadHandlers w) (visibilityHandler w).
Proof.
  induction k as [|k IH]; intros w t Ht Hp Hle.
  - simpl. rewrite Nat.add_0_r, app_nil_r.
    rewrite list_insert_id; [by destruct w|].
    rewrite Ht. f_equal. destruct t; simpl in *; by subst.
  - unfold retry_rounds. rewrite replicate_S. simpl.
    fold (retry_rounds i k).
    pose proof (lookup_lt_Some _ _ _ Ht) as Hi.
    rewrite (fetchSettled_retry w i t) by (done || lia).
    set (d := 2 ^ Z.of_nat (retryCount t) * 1000).
    set (w1 := add_effect _ _).
    assert (tasks w1 !! i = Some (set_phase (RetryScheduled d) t)) as H1
      by (simpl; by rewrite list_lookup_insert_eq).
    rewrite (timeoutElapsed_retry w1 i _ d H1 eq_refl).
    set (t2 := mkSendTask _ _ _ _). set (w2 := add_effect _ _).
    assert (tasks w2 !! i = Some t2) as H2.
    { simpl. rewrite list_lookup_insert_eq; [done|]. by rewrite length_insert. }
    rewrite (IH w2 t2 H2 eq_refl) by (simpl; lia).
    simpl. rewrite !list_insert_insert_eq, <- !app_assoc. simpl.
    by replace (S (retryCount t + k))%nat with (retryCount t + S k)%nat by lia.
Qed.

(** C1 (amended): a send is archived when delivery has failed
    [maxRetries + 1] times, the first attempt and every one of the
    [maxRetries] retries.  The batch is then appended to the failed-batch
    archive as it was submitted and the send is never resumed.  A send
    that fails [maxRetries] times or fewer and then succeeds leaves the
    archive as it was, and is never resumed either. *)
Theorem archived_after_all_retries_fail
    (w : World) (i : nat) (t : SendTask) (m : nat) :
  tasks w !! i = Some t →
  phase t = Attempting →
  retryCount t = 0%nat →
  config_maxRetries (config (this w)) = Z.of_nat m →
  (let w' := run JSON_parse w (retry_rounds i m ++ [FetchSettled i false]) in
   failedBatches (this w') = failedBatches (this w) ++ [batch t] ∧
   tasks w' !! i = Some (mkSendTask (batch t) m Exhausted (caller t)) ∧
   (∀ ok, step JSON_parse w' (FetchSettled i ok) = w') ∧
   step JSON_parse w' (TimeoutElapsed i) = w') ∧
  (∀ k, (k ≤ m)%nat →
     let w' := run JSON_parse w (retry_rounds i k ++ [FetchSettled i true]) in
     failedBatches (this w') = failedBatches (this w) ∧
     tasks w' !! i = Some (mkSendTask (batch t) k Succeeded (caller t)) ∧
     (∀ ok, step JSON_parse w' (FetchSettled i ok) = w') ∧
     step JSON_parse w' (TimeoutElapsed i) = w').
Proof.
  intros Ht Hp Hr Hm.
  pose proof (lookup_lt_Some _ _ _ Ht) as Hi.
  assert (∀ k, (k ≤ m)%nat →
            ∃ wk, run JSON_parse w (retry_rounds i k) = wk ∧
                  this wk = this w ∧
                  tasks wk !! i
                  = Some (mkSendTask (batch t) k Attempting (caller t)))
    as Hrounds.
  { intros k Hk. eexists. split; [reflexivity|].
    rewrite (run_retry_rounds i k w t) by (done || lia). simpl.
    rewrite Hr. split; [done|]. by rewrite list_lookup_insert_eq. }
  split.
  - destruct (Hrounds m (le_n _)) as (wm & Hrun & Hthis & Htm).
    cbv zeta. rewrite run_app, Hrun. simpl.
    rewrite (fetchSettled_exhausted wm i _ Htm eq_refl)
      by (rewrite Hthis, Hm; simpl; lia).
    simpl. set (w1 := set_task _ _ _).
    assert (tasks w1 !! i = Some (mkSendTask (batch t) m Exhausted (caller t)))
      as H1.
    { simpl. rewrite list_lookup_insert_eq; [done|]. by eapply lookup_lt_Some. }
    pose proof (settle_lookup (caller t) w1 i _ H1) as H2.
    split; [by rewrite settle_failedBatches; simpl; rewrite Hthis|].
    split; [done|]. by apply (resolved_is_final _ i _ H2).
  - intros k Hk. destruct (Hrounds k Hk) as (wk & Hrun & Hthis & Htk).
    cbv zeta. rewrite run_app, Hrun. simpl.
    rewrite (fetchSettled_ok wk i _ Htk eq_refl).
    simpl. set (w1 := set_task _ _ _).
    assert (tasks w1 !! i = Some (mkSendTask (batch t) k Succeeded (caller t)))
      as H1.
    { simpl. rewrite list_lookup_insert_eq; [done|]. by eapply lookup_lt_Some. }
    pose proof (settle_lookup (caller t) w1 i _ H1) as H2.
    split; [by rewrite settle_failedBatches; simpl; rewrite Hthis|].
    split; [done|]. by apply (resolved_is_final _ i _ H2).
Qed.


(** *** What no operation changes *)

Ltac unfold_class :=
  unfold trackEvent, try_catch, enqueue, retryFailedBatches, clear, destroy,
    timerTick, flushSync, flush, fetchSettled, timeoutElapsed, settle,
    sendBatch, mbind, completion_bind in *.

Lemma step_config_sessionId (w : World) (op : Op) :
  config (this (step JSON_parse w op)) = config (this w) ∧
  sessionId (this (step JSON_parse w op)) = sessionId (this w).
Proof.
  destruct op; simpl; unfold_class; repeat case_match; simplify_eq; simpl; done.
Qed.

Lemma buildEvent_ext (a a' : Analytics) h m v c pa g :
  config a' = config a → sessionId a' = sessionId a →
  buildEvent a' h m v c pa g = buildEvent a h m v c pa g.
Proof. intros Hc Hs. unfold buildEvent. by rewrite Hc, Hs. Qed.

Lemma tracked_event_ext (a a' : Analytics) (op : Op) :
  config a' = config a → sessionId a' = sessionId a →
  tracked_event JSON_parse a' op = tracked_event JSON_parse a op.
Proof.
  intros Hc Hs. destruct op; simpl; try done. rewrite Hc.
  repeat case_match; try done. f_equal. by apply buildEvent_ext.
Qed.

(** *** The busy flag *)

Lemma busy_flag_invariant_ext (w w' : World) :
  tasks w' = tasks w →
  isFlushingInProgress (this w') = isFlushingInProgress (this w) →
  busy_flag_invariant w → busy_flag_invariant w'.
Proof. unfold busy_flag_invariant. by intros -> ->. Qed.

Lemma flush_busy_flag (w : World) :
  busy_flag_invariant w → busy_flag_invariant (flush w).
Proof.
  unfold busy_flag_invariant, flush. intros H.
  destruct (_ =? _)%nat; simpl; [done|].
  destruct (isFlushingInProgress (this w)) eqn:E; simpl; [by rewrite E|].
  rewrite count_if_app, H. reflexivity.
Qed.

Lemma settle_busy_flag (w w1 : World) i t p' :
  busy_flag_invariant w →
  tasks w !! i = Some t →
  active (phase t) = true →
  active p' = false →
  tasks w1 = <[i := set_phase p' t]> (tasks w) →
  isFlushingInProgress (this w1) = isFlushingInProgress (this w) →
  busy_flag_invariant (settle (caller t) w1).
Proof.
  unfold busy_flag_invariant. intros H Ht Ha Hp' Htasks Hbusy.
  pose proof (count_if_insert flush_in_flight _ i t (set_phase p' t) Ht) as Hc.
  rewrite <- Htasks, H in Hc.
  assert (flush_in_flight (set_phase p' t) = false) as E1
    by (unfold flush_in_flight; simpl; by rewrite Hp').
  assert (flush_in_flight t = by_flush (caller t)) as E2
    by (unfold flush_in_flight; by rewrite Ha).
  rewrite E1, E2 in Hc.
  destruct (caller t) as [|[|b r]] eqn:Ec; simpl in *.
  - destruct (isFlushingInProgress (this w)); simpl in *; lia.
  - rewrite Hbusy. lia.
  - rewrite count_if_app, Hbusy. simpl. lia.
Qed.

Lemma step_busy_flag (w : World) (op : Op) :
  busy_flag_invariant w → busy_flag_invariant (step JSON_parse w op).
Proof.
  intros H. destruct op; simpl.
  - destruct (config_enabled (config (this w))) eqn:Hen.
    + destruct (parseAttributes_total attributes) as [pa Hpa].
      rewrite (trackEvent_enabled _ _ _ _ _ _ _ pa Hen Hpa).
      unfold enqueue. case_match.
      * apply flush_busy_flag. by eapply busy_flag_invariant_ext.
      * by eapply busy_flag_invariant_ext.
    + unfold trackEvent. by rewrite Hen.
  - by apply flush_busy_flag.
  - unfold retryFailedBatches, settle, sendBatch.
    repeat case_match; unfold busy_flag_invariant in *; simpl;
      rewrite ?count_if_app; simpl; lia.
  - by eapply busy_flag_invariant_ext.
  - unfold destroy. apply flush_busy_flag.
    case_match; by eapply busy_flag_invariant_ext.
  - unfold timerTick. repeat case_match; try done. by apply flush_busy_flag.
  - unfold flushSync. repeat case_match; try done;
      by eapply busy_flag_invariant_ext.
  - unfold flushSync. repeat case_match; try done;
      by eapply busy_flag_invariant_ext.
  - case_match; try done. by apply flush_busy_flag.
  - unfold fetchSettled.
    destruct (tasks w !! i) as [t|] eqn:Ht; [|done].
    destruct (phase t) eqn:Hp; try done.
    destruct ok; [|case_match].
    + by eapply (settle_busy_flag w _ i t Succeeded H Ht); [rewrite Hp| | |].
    + unfold busy_flag_invariant in *. simpl.
      pose proof (count_if_insert flush_in_flight _ i t
                    (set_phase (RetryScheduled (2 ^ Z.of_nat (retryCount t) * 1000)) t)
                    Ht) as Hc.
      replace (flush_in_flight (set_phase _ t)) with (flush_in_flight t) in Hc
        by (unfold flush_in_flight; simpl; by rewrite Hp).
      lia.
    + by eapply (settle_busy_flag w _ i t Exhausted H Ht); [rewrite Hp| | |].
  - unfold timeoutElapsed.
    destruct (tasks w !! i) as [t|] eqn:Ht; [|done].
    destruct (phase t) eqn:Hp; try done.
    unfold busy_flag_invariant in *. simpl.
    pose proof (count_if_insert flush_in_flight _ i t
                  (mkSendTask (batch t) (S (retryCount t)) Attempting (caller t))
                  Ht) as Hc.
    replace (flush_in_flight (mkSendTask _ _ _ _)) with (flush_in_flight t) in Hc
      by (unfold flush_in_flight; simpl; by rewrite Hp).
    lia.
Qed.

Lemma reachable_busy_flag (w : World) :
  reachable JSON_parse w → busy_flag_invariant w.
Proof.
  intros (c & h & w0 & ops & Hc & ->).
  assert (busy_flag_invariant w0) as H0.
  { unfold constructor in Hc. simplify_eq.
    unfold busy_flag_invariant, setupUnloadHandler.
    repeat case_match; done. }
  clear Hc. revert w0 H0. unfold run.
  induction ops as [|op ops IH]; intros w0 H0; simpl; [done|].
  apply IH. by apply step_busy_flag.
Qed.

(** A send of [flush] in flight holds the busy flag. *)
Lemma in_flight_sets_busy_flag (w : World) i t :
  busy_flag_invariant w →
  tasks w !! i = Some t → flush_in_flight t = true →
  isFlushingInProgress (this w) = true.
Proof.
  unfold busy_flag_invariant. intros H Ht Hf.
  assert (1 ≤ count_if flush_in_flight (tasks w))%nat as Hge.
  { clear H. revert i Ht. induction (tasks w) as [|a l IH]; intros [|i] Ht;
      simplify_eq/=; [rewrite Hf; simpl; lia|].
    specialize (IH _ Ht). lia. }
  destruct (isFlushingInProgress (this w)); simpl in *; [done | lia].
Qed.


Lemma flush_busy (w : World) :
  isFlushingInProgress (this w) = true → flush w = w.
Proof. intros H. unfold flush. rewrite H. by rewrite orb_true_r. Qed.


(** *** Conservation of events *)

Lemma flush_taken_and_queued (w : World) :
  taken_and_queued (flush w) = taken_and_queued w.
Proof.
  unfold taken_and_queued, flush_batches, flush.
  destruct (_ || _); [done|]. simpl.
  by rewrite omap_app, concat_app, app_nil_r; simpl; rewrite app_nil_r.
Qed.

Lemma settle_taken_and_queued (c : Caller) (w : World) :
  taken_and_queued (settle c w) = taken_and_queued w.
Proof.
  unfold taken_and_queued, flush_batches.
  destruct c as [|[|b r]]; simpl; try done.
  by rewrite omap_app; simpl; rewrite app_nil_r.
Qed.

Lemma set_task_taken_and_queued (w : World) i t t' :
  tasks w !! i = Some t → batch t' = batch t → caller t' = caller t →
  taken_and_queued (set_task i t' w) = taken_and_queued w.
Proof.
  intros Ht Hb Hc. unfold taken_and_queued, flush_batches. simpl.
  rewrite (omap_insert_same _ _ i t t' Ht); [done|]. by rewrite Hb, Hc.
Qed.

Lemma enqueue_taken_and_queued (e : gmap string JsValue) (w : World) :
  taken_and_queued (enqueue e w) = taken_and_queued w ++ [e].
Proof.
  unfold enqueue. set (w1 := with_this _ w).
  assert (taken_and_queued w1 = taken_and_queued w ++ [e]) as H
    by (unfold taken_and_queued, flush_batches; simpl; by rewrite app_assoc).
  case_match; [by rewrite flush_taken_and_queued | done].
Qed.

Lemma step_taken_and_queued (w : World) (op : Op) :
  async_op op = true →
  taken_and_queued (step JSON_parse w op)
  = taken_and_queued w ++ option_list (tracked_event JSON_parse (this w) op).
Proof.
  intros Hop. destruct op; try discriminate; simpl; rewrite ?app_nil_r.
  - destruct (config_enabled (config (this w))) eqn:Hen.
    + destruct (parseAttributes_total attributes) as [pa Hpa].
      rewrite (trackEvent_enabled _ _ _ _ _ _ _ pa Hen Hpa), Hpa. simpl.
      apply enqueue_taken_and_queued.
    + unfold trackEvent. rewrite Hen. simpl. by rewrite app_nil_r.
  - apply flush_taken_and_queued.
  - unfold retryFailedBatches. by rewrite settle_taken_and_queued.
  - unfold destroy. rewrite flush_taken_and_queued. by case_match.
  - unfold timerTick. repeat case_match; try done. apply flush_taken_and_queued.
  - case_match; [apply flush_taken_and_queued | done].
  - unfold fetchSettled.
    destruct (tasks w !! i) as [t|] eqn:Ht; [|done].
    destruct (phase t) eqn:Hp; try done.
    destruct ok; [|case_match].
    + rewrite settle_taken_and_queued. by apply (set_task_taken_and_queued w i t).
    + change (taken_and_queued (add_effect ?e ?x)) with (taken_and_queued x).
      by apply (set_task_taken_and_queued w i t).
    + rewrite settle_taken_and_queued.
      by rewrite (set_task_taken_and_queued _ i t).
  - unfold timeoutElapsed.
    destruct (tasks w !! i) as [t|] eqn:Ht; [|done].
    destruct (phase t) eqn:Hp; try done.
    change (taken_and_queued (add_effect ?e ?x)) with (taken_and_queued x).
    by apply (set_task_taken_and_queued w i t).
Qed.

Lemma run_taken_and_queued (ops : list Op) :
  ∀ w : World,
    forallb async_op ops = true →
    taken_and_queued (run JSON_parse w ops)
    = taken_and_queued w ++ omap (tracked_event JSON_parse (this w)) ops.
Proof.
  induction ops as [|op ops IH]; intros w Hops; simpl.
  - by rewrite app_nil_r.
  - apply andb_prop in Hops as [Hop Hops].
    unfold run in *. simpl. rewrite (IH _ Hops).
    rewrite (step_taken_and_queued w op Hop), <- app_assoc. f_equal.
    destruct (step_config_sessionId w op) as [Hc Hs].
    rewrite (omap_ext_all _ (tracked_event JSON_parse (this w)))
      by (intros o; by apply tracked_event_ext).
    by destruct (tracked_event JSON_parse (this w) op).
Qed.


Lemma flush_idle (w : World) :
  eventQueue (this w) ≠ [] →
  isFlushingInProgress (this w) = false →
  flush w
  = mkWorld
      (set_eventQueue [] (set_isFlushingInProgress true (this w)))
      (tasks w ++ [mkSendTask (eventQueue (this w)) 0 Attempting ByFlush])
      (effects w ++
         [Fetch (config_endpoint (config (this w))) (eventQueue (this w))])
      (unloadHandlers w) (visibilityHandler w).
Proof.
  intros Hq Hb. unfold flush. rewrite Hb.
  replace (length (eventQueue (this w)) =? 0)%nat with false; [done|].
  symmetry. apply Nat.eqb_neq. by destruct (eventQueue (this w)).
Qed.

(** C2 (amended): a flush that takes effect takes the whole queue, in
    insertion order, as its batch and leaves the queue empty in the same
    step.  An event tracked while the send of a flush is in flight leaves
    every existing batch as it is and goes to the end of the queue.  As
    long as the queue is emptied by [flush] only (no [clear], no page
    unload among the operations that follow), the batches taken by
    [flush], in order, followed by the queue, are the earlier batches,
    the events queued before, this event once, and the events tracked
    after it: it is not duplicated, it is in a later batch or still
    queued, and the flush requested after the send has been delivered
    takes it. *)
Theorem flush_takes_queue_and_later_events_wait
    (w0 w : World) (i : nat) (t : SendTask)
    (h : Host) (m : string) (v c a g : JsValue) (ops : list Op) :
  (eventQueue (this w0) ≠ [] →
   isFlushingInProgress (this w0) = false →
   eventQueue (this (flush w0)) = [] ∧
   tasks (flush w0) = tasks w0 ++
     [mkSendTask (eventQueue (this w0)) 0 Attempting ByFlush] ∧
   effects (flush w0) = effects w0 ++
     [Fetch (config_endpoint (config (this w0))) (eventQueue (this w0))] ∧
   isFlushingInProgress (this (flush w0)) = true) ∧
  (reachable JSON_parse w →
   tasks w !! i = Some t →
   flush_in_flight t = true →
   config_enabled (config (this w)) = true →
   forallb async_op ops = true →
   ∃ event w',
     trackEvent JSON_parse m v c a g h w = Normal w' ∧
     tasks w' = tasks w ∧
     eventQueue (this w') = eventQueue (this w) ++ [event] ∧
     taken_and_queued (run JSON_parse w' ops)
     = concat (flush_batches w) ++ eventQueue (this w) ++ [event] ++
       omap (tracked_event JSON_parse (this w)) ops ∧
     (phase t = Attempting →
      tasks (run JSON_parse w' [FetchSettled i true; CallFlush])
      = <[i := set_phase Succeeded t]> (tasks w) ++
        [mkSendTask (eventQueue (this w) ++ [event]) 0 Attempting ByFlush])).
Proof.
  split.
  - intros Hq Hb. by rewrite (flush_idle w0 Hq Hb).
  - intros Hreach Ht Hf Hen Hops.
    assert (isFlushingInProgress (this w) = true) as Hbusy
      by (eapply in_flight_sets_busy_flag; eauto using reachable_busy_flag).
    destruct (parseAttributes_total a) as [pa Hpa].
    pose proof (trackEvent_enabled m v c a g h w pa Hen Hpa) as Htrack.
    set (event := buildEvent (this w) h m v c pa g) in *.
    set (w1 := with_this (λ x, set_eventQueue (eventQueue x ++ [event]) x) w).
    assert (enqueue event w = w1) as He.
    { unfold enqueue. fold w1. rewrite (flush_busy w1) by done.
      by destruct (_ >=? _). }
    rewrite He in Htrack. exists event, w1.
    split; [done|]. split; [done|]. split; [done|]. split.
    + rewrite (run_taken_and_queued ops w1 Hops).
      unfold taken_and_queued at 1. simpl. by rewrite <- !app_assoc.
    + intros Hp. unfold run. simpl.
      rewrite (fetchSettled_ok w1 i t Ht Hp).
      assert (caller t = ByFlush) as ->.
      { unfold flush_in_flight in Hf. apply andb_prop in Hf as [_ Hf].
        by destruct (caller t). }
      rewrite flush_idle; [done| |done].
      simpl. by destruct (eventQueue (this w)).
Qed.

End Properties.


(** ** Further properties of the class *)

Section Behaviour.

Variable JSON_parse : string → Completion JsValue.

(** *** A disabled instance *)

(** X1: an instance constructed with [enabled: false] is inert: it arms no
    timer and registers no listener, and no sequence of calls and host
    events changes it or reaches the host; in particular nothing is ever
    queued or sent. *)
Theorem disabled_instance_is_inert
    (c : AnalyticsConfig) (h : Host) (w0 : World) (ops : list Op) :
  constructor c h = Normal w0 →
  enabled c = Some false →
  run JSON_parse w0 ops = w0 ∧
  effects w0 = [] ∧
  flushTimer (this w0) = None ∧
  unloadHandlers w0 = false ∧
  visibilityHandler w0 = false.
Proof.
  intros Hc Hen. unfold constructor in Hc. rewrite Hen in Hc. simpl in Hc.
  injection Hc as <-. split; [|done].
  induction ops as [|op ops IH]; [done|].
  unfold run in *. simpl. rewrite <- IH at 2. f_equal.
  destruct op; reflexivity.
Qed.

(** *** The busy flag *)

Lemma count_if_pos {A} (f : A → bool) (l : list A) :
  (0 < count_if f l)%nat → ∃ i x, l !! i = Some x ∧ f x = true.
Proof.
  induction l as [|a l IH]; simpl; [lia|]. intros H.
  destruct (f a) eqn:E.
  - by exists 0%nat, a.
  - destruct IH as (i & x & Hi & Hx); [simpl in H; lia|].
    by exists (S i), x.
Qed.

(** X2: in every state the instance can reach, at most one send started by
    [flush] is unresolved, and [isFlushingInProgress] is set exactly when
    there is one. *)
Theorem at_most_one_flush_in_flight (w : World) :
  reachable JSON_parse w →
  (count_if flush_in_flight (tasks w) ≤ 1)%nat ∧
  (isFlushingInProgress (this w) = true ↔
   ∃ i t, tasks w !! i = Some t ∧ flush_in_flight t = true).
Proof.
  intros Hr. pose proof (reachable_busy_flag JSON_parse w Hr) as Hinv.
  split.
  - rewrite Hinv. destruct (isFlushingInProgress (this w)); simpl; lia.
  - split.
    + intros Hb. apply count_if_pos. rewrite Hinv, Hb. simpl. lia.
    + intros (i & t & Ht & Hf). by eapply in_flight_sets_busy_flag.
Qed.

(** *** Calls that only queue *)

Lemma tracked_event_enabled (a : Analytics) (op : Op) :
  config_enabled (config a) = true → is_track op = true →
  is_Some (tracked_event JSON_parse a op).
Proof.
  intros Hen Hop. destruct op; try discriminate. simpl. rewrite Hen.
  destruct (parseAttributes_total JSON_parse attributes) as [pa ->]. eauto.
Qed.

Lemma length_tracked_events (a : Analytics) (ops : list Op) :
  config_enabled (config a) = true → forallb is_track ops = true →
  length (omap (tracked_event JSON_parse a) ops) = length ops.
Proof.
  intros Hen. induction ops as [|op ops IH]; intros H; [done|].
  apply andb_prop in H as [Hop Hops]. csimpl.
  destruct (tracked_event_enabled a op Hen Hop) as [e ->]. simpl.
  by rewrite IH.
Qed.

Lemma length_tracked_events_le (a : Analytics) (ops : list Op) :
  (length (omap (tracked_event JSON_parse a) ops) ≤ length ops)%nat.
Proof.
  induction ops as [|op ops IH]; csimpl; [done|].
  destruct (tracked_event JSON_parse a op); simpl; lia.
Qed.

Lemma set_eventQueue_same (w : World) :
  with_this (set_eventQueue (eventQueue (this w))) w = w.
Proof. by destruct w as [[]]. Qed.

(** While a flush is in flight, or while the queue stays below the batch
    size, [trackEvent] calls only append to the queue. *)
Lemma run_tracks_append (ops : list Op) :
  ∀ w : World,
    forallb is_track ops = true →
    isFlushingInProgress (this w) = true ∨
    Z.of_nat (length (eventQueue (this w)) + length ops)
      < config_batchSize (config (this w)) →
    run JSON_parse w ops
    = with_this
        (set_eventQueue
           (eventQueue (this w) ++ omap (tracked_event JSON_parse (this w)) ops))
        w.
Proof.
  induction ops as [|op ops IH]; intros w Hops Hcase.
  - simpl. rewrite app_nil_r. by rewrite set_eventQueue_same.
  - apply andb_prop in Hops as [Hop Hops].
    destruct op; try discriminate. unfold run in *. simpl.
    destruct (config_enabled (config (this w))) eqn:Hen.
    + destruct (parseAttributes_total JSON_parse attributes) as [pa Hpa].
      rewrite (trackEvent_enabled JSON_parse _ _ _ _ _ _ _ pa Hen Hpa), Hpa.
      set (e := buildEvent _ _ _ _ _ _ _).
      set (w1 := with_this (λ a, set_eventQueue (eventQueue a ++ [e]) a) w).
      assert (enqueue e w = w1) as ->.
      { unfold enqueue. fold w1. destruct Hcase as [Hb|Hlt].
        - rewrite (flush_busy w1) by done. by destruct (_ >=? _).
        - replace (_ >=? _) with false; [done|].
          symmetry. rewrite Z.geb_leb. apply Z.leb_gt. simpl. rewrite length_app. simpl in *. lia. }
      rewrite (IH w1 Hops).
      * rewrite (omap_ext_all _ (tracked_event JSON_parse (this w)))
          by (intros o; by apply tracked_event_ext).
        simpl. unfold with_this, set_eventQueue. simpl.
        by rewrite <- app_assoc.
      * destruct Hcase as [Hb|Hlt]; [by left|right].
        simpl. rewrite length_app. simpl in *. lia.
    + unfold trackEvent. rewrite Hen. simpl.
      apply (IH w Hops). destruct Hcase as [Hb|Hlt]; [by left|right].
      simpl in *. lia.
Qed.

(** X3: while a flush is in flight there is no cap on the queue and no
    event is dropped: any number of [trackEvent] calls on an enabled
    instance append one event each, in call order, and start no send, even
    when the queue passes the batch size. *)
Theorem tracking_while_busy_only_queues (w : World) (ops : list Op) :
  config_enabled (config (this w)) = true →
  isFlushingInProgress (this w) = true →
  forallb is_track ops = true →
  let w' := run JSON_parse w ops in
  eventQueue (this w')
  = eventQueue (this w) ++ omap (tracked_event JSON_parse (this w)) ops ∧
  length (eventQueue (this w')) = (length (eventQueue (this w)) + length ops)%nat ∧
  tasks w' = tasks w ∧
  effects w' = effects w ∧
  failedBatches (this w') = failedBatches (this w).
Proof.
  intros Hen Hb Hops. cbv zeta.
  rewrite (run_tracks_append ops w Hops) by (by left). simpl.
  by rewrite length_app, length_tracked_events.
Qed.

(** X4: the timer trigger.  On an idle enabled instance whose timer is
    armed, [trackEvent] calls that keep the queue below the batch size
    reach the host with nothing; the next tick of the timer then issues
    exactly one POST, whose body is the whole queue in call order, and
    leaves the queue empty. *)
Theorem timer_flushes_a_partial_batch (w : World) (ops : list Op) :
  config_enabled (config (this w)) = true →
  isFlushingInProgress (this w) = false →
  is_Some (flushTimer (this w)) →
  forallb is_track ops = true →
  (0 < length (eventQueue (this w)) + length ops)%nat →
  Z.of_nat (length (eventQueue (this w)) + length ops)
    < config_batchSize (config (this w)) →
  let sent :=
    eventQueue (this w) ++ omap (tracked_event JSON_parse (this w)) ops in
  effects (run JSON_parse w ops) = effects w ∧
  tasks (run JSON_parse w ops) = tasks w ∧
  let w' := run JSON_parse w (ops ++ [TimerTick]) in
  effects w' = effects w ++ [Fetch (config_endpoint (config (this w))) sent] ∧
  tasks w' = tasks w ++ [mkSendTask sent 0 Attempting ByFlush] ∧
  eventQueue (this w') = [] ∧
  length sent = (length (eventQueue (this w)) + length ops)%nat.
Proof.
  intros Hen Hb [p Hp] Hops Hpos Hlt. cbv zeta.
  rewrite run_app, (run_tracks_append ops w Hops) by (by right).
  set (sent := eventQueue (this w) ++ _).
  assert (length sent = (length (eventQueue (this w)) + length ops)%nat) as Hlen
    by (unfold sent; by rewrite length_app, length_tracked_events).
  split; [done|]. split; [done|].
  unfold run. simpl. unfold timerTick. simpl. rewrite Hp.
  replace (0 <? length sent)%nat with true
    by (symmetry; apply Nat.ltb_lt; lia).
  rewrite flush_idle; [done| |done].
  simpl. intros ->. simpl in Hlen. lia.
Qed.

(** *** The unload path *)

(** X5: with its listeners registered and a non-empty queue, a page-hide
    event empties the queue in one synchronous hand-over that bypasses
    the busy flag: one [sendBeacon] call with the whole queue when the
    host has [sendBeacon] (whatever it returns), else one synchronous
    XHR, else nothing at all.  Sends in flight, the busy flag and the
    archive are untouched: the batch is neither retried nor archived.
    [beforeunload] does the same, and whichever unload event comes second
    finds the queue empty and does nothing. *)
Theorem unload_hands_over_the_queue_once (w : World) (h h' : Host) :
  unloadHandlers w = true →
  eventQueue (this w) ≠ [] →
  let w' := step JSON_parse w (PageHide h) in
  let url := config_endpoint (config (this w)) in
  eventQueue (this w') = [] ∧
  tasks w' = tasks w ∧
  isFlushingInProgress (this w') = isFlushingInProgress (this w) ∧
  failedBatches (this w') = failedBatches (this w) ∧
  (∀ sent, navigator h ≫= navigator_sendBeacon = Some sent →
     effects w' = effects w ++ [SendBeacon url (eventQueue (this w))]) ∧
  (navigator h ≫= navigator_sendBeacon = None →
   XMLHttpRequest_defined h = true →
     effects w' = effects w ++ [XhrSend url (eventQueue (this w))]) ∧
  (navigator h ≫= navigator_sendBeacon = None →
   XMLHttpRequest_defined h = false →
     effects w' = effects w) ∧
  step JSON_parse w (BeforeUnload h) = w' ∧
  step JSON_parse w' (BeforeUnload h') = w' ∧
  step JSON_parse w' (PageHide h') = w'.
Proof.
  intros Hu Hq. cbv zeta. simpl. rewrite Hu. unfold flushSync.
  replace (length (eventQueue (this w)) =? 0)%nat with false
    by (symmetry; apply Nat.eqb_neq; by destruct (eventQueue (this w))).
  destruct (navigator h ≫= navigator_sendBeacon) as [sent|];
    [|destruct (XMLHttpRequest_defined h)]; simpl; rewrite Hu; simpl;
    split_and!; try done; by intros ? [=].
Qed.

(** *** Resubmitting the archive *)

Lemma run_cons (w : World) (op : Op) (ops : list Op) :
  run JSON_parse w (op :: ops) = run JSON_parse (step JSON_parse w op) ops.
Proof. reflexivity. Qed.

Lemma lookup_last_task (w : World) (t : SendTask) :
  (tasks w ++ [t]) !! length (tasks w) = Some t.
Proof. by rewrite list_lookup_middle. Qed.

Lemma insert_last_task (w : World) (t t' : SendTask) :
  <[length (tasks w) := t']> (tasks w ++ [t]) = tasks w ++ [t'].
Proof.
  rewrite insert_app_r_alt by done. by rewrite Nat.sub_diag.
Qed.

Lemma run_settle_each_ok (bs : list Batch) :
  ∀ w : World,
    let w' := run JSON_parse (settle (ByRetryFailedBatches bs) w)
                (settle_each true (length (tasks w)) (length bs)) in
    this w' = this w ∧
    effects w' = effects w ++ map (Fetch (config_endpoint (config (this w)))) bs ∧
    ∃ ts, tasks w' = tasks w ++ ts ∧
          map batch ts = bs ∧
          Forall (λ t, phase t = Succeeded) ts.
Proof.
  induction bs as [|b rest IH]; intros w; cbv zeta.
  - simpl. rewrite app_nil_r. split; [done|]. split; [done|].
    exists []. by rewrite app_nil_r.
  - cbn [settle settle_each length]. rewrite run_cons. cbn [step].
    set (t0 := mkSendTask b 0 Attempting (ByRetryFailedBatches rest)).
    set (w1 := sendBatch b (ByRetryFailedBatches rest) w).
    assert (tasks w1 !! length (tasks w) = Some t0) as Ht0
      by apply lookup_last_task.
    rewrite (fetchSettled_ok w1 _ t0 Ht0 eq_refl).
    change (caller t0) with (ByRetryFailedBatches rest).
    set (w2 := set_task _ _ w1).
    assert (tasks w2 = tasks w ++ [set_phase Succeeded t0]) as Ht2
      by apply insert_last_task.
    assert (length (tasks w2) = S (length (tasks w))) as Hlen
      by (rewrite Ht2, length_app; simpl; lia).
    specialize (IH w2). cbv zeta in IH. rewrite Hlen in IH.
    destruct IH as (Hthis & Heff & ts & Hts & Hb & Hp).
    split; [by rewrite Hthis|].
    split; [rewrite Heff; simpl; by rewrite <- app_assoc|].
    exists (set_phase Succeeded t0 :: ts).
    split; [rewrite Hts, Ht2; by rewrite <- app_assoc|].
    split; [simpl; by rewrite Hb | by constructor].
Qed.

(** X6: [retryFailedBatches] empties the archive at once and resubmits
    its batches one at a time, oldest first: only the first POST is
    issued by the call itself, each later one when the previous send
    resolves.  If every resubmission is accepted at its first attempt the
    POSTs are exactly the archived batches in archive order, the archive
    stays empty, and the queue and the busy flag are never touched. *)
Theorem retryFailedBatches_resubmits_in_order (w : World) :
  let bs := failedBatches (this w) in
  let url := config_endpoint (config (this w)) in
  let w1 := step JSON_parse w CallRetryFailedBatches in
  let w' := run JSON_parse w1 (settle_each true (length (tasks w)) (length bs)) in
  failedBatches (this w1) = [] ∧
  effects w1 = effects w ++ take 1 (map (Fetch url) bs) ∧
  failedBatches (this w') = [] ∧
  effects w' = effects w ++ map (Fetch url) bs ∧
  eventQueue (this w') = eventQueue (this w) ∧
  isFlushingInProgress (this w') = isFlushingInProgress (this w) ∧
  ∃ ts, tasks w' = tasks w ++ ts ∧
        map batch ts = bs ∧
        Forall (λ t, phase t = Succeeded) ts.
Proof.
  cbv zeta. simpl. unfold retryFailedBatches.
  set (w0 := with_this (set_failedBatches []) w).
  split; [apply settle_failedBatches|].
  split; [destruct (failedBatches (this w)); simpl; by rewrite ?app_nil_r|].
  destruct (run_settle_each_ok (failedBatches (this w)) w0)
    as (Hthis & Heff & ts & Hts & Hb & Hp).
  change (tasks w0) with (tasks w) in *.
  rewrite Hthis. split; [done|]. split; [done|]. split; [done|].
  split; [done|]. by exists ts.
Qed.

Lemma run_exhaust_each (m : nat) (bs : list Batch) :
  ∀ w : World,
    config_maxRetries (config (this w)) = Z.of_nat m →
    let w' := run JSON_parse (settle (ByRetryFailedBatches bs) w)
                (exhaust_each m (length (tasks w)) (length bs)) in
    failedBatches (this w') = failedBatches (this w) ++ bs ∧
    eventQueue (this w') = eventQueue (this w) ∧
    isFlushingInProgress (this w') = isFlushingInProgress (this w) ∧
    length (tasks w') = (length (tasks w) + length bs)%nat.
Proof.
  induction bs as [|b rest IH]; intros w Hm; cbv zeta.
  - simpl. rewrite app_nil_r. split_and!; try done; lia.
  - cbn [settle exhaust_each length]. rewrite run_app.
    set (t0 := mkSendTask b 0 Attempting (ByRetryFailedBatches rest)).
    set (w1 := sendBatch b (ByRetryFailedBatches rest) w).
    assert (tasks w1 !! length (tasks w) = Some t0) as Ht0
      by apply lookup_last_task.
    rewrite (run_retry_rounds JSON_parse _ m w1 t0 Ht0 eq_refl)
      by (simpl; rewrite Hm; lia).
    set (w1' := mkWorld _ _ _ _ _).
    set (tm := mkSendTask b (0 + m) Attempting (ByRetryFailedBatches rest)).
    assert (tasks w1' = tasks w ++ [tm]) as Ht1' by apply insert_last_task.
    assert (tasks w1' !! length (tasks w) = Some tm) as Htm
      by (rewrite Ht1'; apply lookup_last_task).
    rewrite run_cons. cbn [step].
    rewrite (fetchSettled_exhausted w1' _ tm Htm eq_refl)
      by (simpl; rewrite Hm; lia).
    change (caller tm) with (ByRetryFailedBatches rest).
    set (w2 := set_task _ _ _).
    assert (tasks w2 = tasks w ++ [set_phase Exhausted tm]) as Ht2.
    { change (tasks w2)
        with (<[length (tasks w) := set_phase Exhausted tm]> (tasks w1')).
      rewrite Ht1'. apply insert_last_task. }
    assert (length (tasks w2) = S (length (tasks w))) as Hlen
      by (rewrite Ht2, length_app; simpl; lia).
    specialize (IH w2 Hm). cbv zeta in IH. rewrite Hlen in IH.
    destruct IH as (Hf & Hq & Hb & Hl).
    rewrite Hf, Hq, Hb, Hl. simpl.
    split_and!; try done; try lia. by rewrite <- app_assoc.
Qed.

(** X7: resubmission against an endpoint that stays down is a round
    trip.  [retryFailedBatches] followed by the failure of every attempt
    of every resubmitted batch ([maxRetries + 1] attempts each) leaves the
    archive exactly as it was before the call, in the same order; the
    queue and the busy flag are untouched. *)
Theorem retryFailedBatches_rearchives_on_failure (w : World) (m : nat) :
  config_maxRetries (config (this w)) = Z.of_nat m →
  let bs := failedBatches (this w) in
  let w' := run JSON_parse w
              (CallRetryFailedBatches
                 :: exhaust_each m (length (tasks w)) (length bs)) in
  failedBatches (this w') = bs ∧
  eventQueue (this w') = eventQueue (this w) ∧
  isFlushingInProgress (this w') = isFlushingInProgress (this w) ∧
  length (tasks w') = (length (tasks w) + length bs)%nat.
Proof.
  intros Hm. cbv zeta. rewrite run_cons. cbn [step].
  unfold retryFailedBatches.
  set (w0 := with_this (set_failedBatches []) w).
  destruct (run_exhaust_each m (failedBatches (this w)) w0 Hm)
    as (Hf & Hq & Hb & Hl).
  change (tasks w0) with (tasks w) in *. by rewrite Hf, Hq, Hb, Hl.
Qed.

(** *** When the send of a flush resolves *)

(** X8: when the send of a [flush] resolves, delivered or given up after
    the last retry, the busy flag is released in the same step, but
    nothing else happens: events queued in the meantime stay queued and
    no POST is issued for them, however long the queue.  They go out with
    the next flush request, which takes the whole queue. *)
Theorem resolved_flush_releases_the_busy_flag
    (w : World) (i : nat) (t : SendTask) (ok : bool) :
  tasks w !! i = Some t →
  phase t = Attempting →
  caller t = ByFlush →
  ok = true ∨ config_maxRetries (config (this w)) <= Z.of_nat (retryCount t) →
  let w' := step JSON_parse w (FetchSettled i ok) in
  isFlushingInProgress (this w') = false ∧
  eventQueue (this w') = eventQueue (this w) ∧
  effects w' = effects w ∧
  active <$> (phase <$> tasks w' !! i) = Some false ∧
  (eventQueue (this w) ≠ [] →
   tasks (step JSON_parse w' CallFlush)
   = tasks w' ++ [mkSendTask (eventQueue (this w)) 0 Attempting ByFlush]).
Proof.
  intros Ht Hp Hc Hcase. cbv zeta. simpl.
  pose proof (lookup_lt_Some _ _ _ Ht) as Hi.
  assert (∃ p' f,
            active p' = false ∧
            fetchSettled i ok w
            = settle ByFlush (set_task i (set_phase p' t) (with_this f w)) ∧
            (∀ a, eventQueue (f a) = eventQueue a))
    as (p' & f & Hp' & -> & Hf).
  { destruct ok.
    - exists Succeeded, id. rewrite (fetchSettled_ok w i t Ht Hp), Hc.
      by split_and!.
    - destruct Hcase as [|Hle]; [done|].
      exists Exhausted, (λ a, set_failedBatches (failedBatches a ++ [batch t]) a).
      by rewrite (fetchSettled_exhausted w i t Ht Hp Hle), Hc. }
  simpl. rewrite Hf. split_and!; try done.
  - rewrite list_lookup_insert_eq by done. simpl. by rewrite Hp'.
  - intros Hq. rewrite flush_idle; simpl; by rewrite ?Hf.
Qed.

Ltac unfold_methods :=
  unfold trackEvent, try_catch, enqueue, retryFailedBatches, clear, destroy,
    timerTick, flushSync, flush, fetchSettled, timeoutElapsed, settle,
    sendBatch, mbind, completion_bind in *.

(** *** Teardown *)





(** *** Retries are bounded *)

Lemma attempts_bounded_new (m : Z) (b : Batch) (c : Caller) :
  attempts_bounded m (mkSendTask b 0 Attempting c).
Proof. split; [simpl; lia | by intros d [=]]. Qed.

Lemma attempts_bounded_resolved (m : Z) (t : SendTask) (p : Phase) :
  active p = false → attempts_bounded m t → attempts_bounded m (set_phase p t).
Proof.
  intros Hp [H1 _]. split; [done|]. intros d Hd. simpl in Hd.
  subst p. discriminate.
Qed.

Lemma step_attempts_bounded (w : World) (op : Op) :
  Forall (attempts_bounded (config_maxRetries (config (this w)))) (tasks w) →
  Forall (attempts_bounded (config_maxRetries (config (this w))))
    (tasks (step JSON_parse w op)).
Proof.
  intros H.
  assert (∀ b c, Forall (attempts_bounded (config_maxRetries (config (this w))))
                   (tasks w ++ [mkSendTask b 0 Attempting c])) as Hnew
    by (intros; apply Forall_app; split; [done|];
        apply Forall_singleton, attempts_bounded_new).
  destruct op; simpl.
  - unfold_methods. repeat case_match; simplify_eq; simpl; auto.
  - unfold_methods. repeat case_match; simpl; auto.
  - unfold_methods. repeat case_match; simpl; auto.
  - done.
  - unfold_methods. repeat case_match; simpl; auto.
  - unfold_methods. repeat case_match; simpl; auto.
  - unfold_methods. repeat case_match; simpl; auto.
  - unfold_methods. repeat case_match; simpl; auto.
  - unfold_methods. repeat case_match; simpl; auto.
  - unfold fetchSettled.
    destruct (tasks w !! i) as [t|] eqn:Ht; [|done].
    pose proof (proj1 (Forall_lookup _ _) H i t Ht) as Hb.
    destruct (phase t) eqn:Hp; try done.
    assert (∀ p c w1,
              active p = false →
              tasks w1 = <[i := set_phase p t]> (tasks w) →
              Forall (attempts_bounded (config_maxRetries (config (this w))))
                (tasks (settle c w1))) as Hsettle.
    { intros p c w1 Hact Hw1.
      assert (Forall (attempts_bounded (config_maxRetries (config (this w))))
                (tasks w1)) as H1
        by (rewrite Hw1; apply Forall_insert;
            [done | by apply attempts_bounded_resolved]).
      destruct c as [|[|b r]]; simpl; try done.
      apply Forall_app; split; [done|].
      apply Forall_singleton, attempts_bounded_new. }
    destruct ok; [by apply (Hsettle Succeeded)|].
    destruct (_ <? _) eqn:Hlt; [|by apply (Hsettle Exhausted)].
    simpl. apply Forall_insert; [done|].
    apply Z.ltb_lt in Hlt. destruct Hb as [Hb _].
    split; [done|]. by intros d [= <-].
  - unfold timeoutElapsed.
    destruct (tasks w !! i) as [t|] eqn:Ht; [|done].
    pose proof (proj1 (Forall_lookup _ _) H i t Ht) as [_ Hb].
    destruct (phase t) eqn:Hp; try done. simpl.
    apply Forall_insert; [done|].
    destruct (Hb _ eq_refl) as [_ Hlt].
    split; [simpl; lia | by intros d [=]].
Qed.

(** X10: in every reachable state no send has been retried more than
    [maxRetries] times (never, when [maxRetries] is zero or negative), so a
    batch is posted at most [maxRetries + 1] times per submission; and a
    retry that is waiting out its delay has retries left and waits
    exactly [2^retryCount * 1000] ms. *)
Theorem attempts_are_bounded (w : World) (i : nat) (t : SendTask) :
  reachable JSON_parse w →
  tasks w !! i = Some t →
  Z.of_nat (retryCount t) <= Z.max 0 (config_maxRetries (config (this w))) ∧
  ∀ d, phase t = RetryScheduled d →
       d = 2 ^ Z.of_nat (retryCount t) * 1000 ∧
       Z.of_nat (retryCount t) < config_maxRetries (config (this w)).
Proof.
  intros (c & h & w0 & ops & Hc & ->) Ht.
  assert (Forall (attempts_bounded (config_maxRetries (config (this w0))))
            (tasks w0)) as H0.
  { unfold constructor in Hc. simplify_eq.
    unfold setupUnloadHandler. repeat case_match; by constructor. }
  clear Hc.
  assert (Forall (attempts_bounded
                    (config_maxRetries (config (this (run JSON_parse w0 ops)))))
            (tasks (run JSON_parse w0 ops))) as H.
  { revert w0 H0 Ht. unfold run.
    induction ops as [|op ops IH]; intros w0 H0 Ht; simpl; [done|].
    apply IH; [|done].
    destruct (step_config_sessionId JSON_parse w0 op) as [-> _].
    by apply step_attempts_bounded. }
  exact (proj1 (Forall_lookup _ _) H i t Ht).
Qed.

(** *** Where events come from *)

Section EveryEvent.

Variable P : gmap string JsValue → Prop.

Lemma every_event_flush (w : World) :
  every_event P w → every_event P (flush w).
Proof.
  intros (Hq & Hf & Ht). unfold flush. case_match; [done|].
  split_and!; simpl; try done.
  apply Forall_app. split; [done|]. apply Forall_singleton. by split.
Qed.

Lemma every_event_settle (c : Caller) (w : World) :
  Forall (Forall P) (pending c) → every_event P w → every_event P (settle c w).
Proof.
  intros Hc (Hq & Hf & Ht). destruct c as [|[|b r]]; simpl; try done.
  apply Forall_cons in Hc as [Hb Hr].
  split_and!; simpl; try done.
  apply Forall_app. split; [done|]. apply Forall_singleton. by split.
Qed.

Lemma every_event_set_task (w : World) i t t' :
  tasks w !! i = Some t → batch t' = batch t → caller t' = caller t →
  every_event P w → every_event P (set_task i t' w).
Proof.
  intros Hi Hb Hc (Hq & Hf & Ht). split_and!; simpl; try done.
  apply Forall_insert; [done|]. rewrite Hb, Hc.
  exact (proj1 (Forall_lookup _ _) Ht i t Hi).
Qed.

Lemma every_event_ext (w w' : World) :
  eventQueue (this w') = eventQueue (this w) →
  failedBatches (this w') = failedBatches (this w) →
  tasks w' = tasks w →
  every_event P w → every_event P w'.
Proof. unfold every_event. by intros -> -> ->. Qed.

Lemma step_every_event (w : World) (op : Op) :
  (∀ e, tracked_event JSON_parse (this w) op = Some e → P e) →
  every_event P w → every_event P (step JSON_parse w op).
Proof.
  intros He H. pose proof H as (Hq & Hf & Ht). destruct op; simpl.
  - simpl in He. destruct (config_enabled (config (this w))) eqn:Hen.
    + destruct (parseAttributes_total JSON_parse attributes) as [pa Hpa].
      rewrite (trackEvent_enabled JSON_parse _ _ _ _ _ _ _ pa Hen Hpa).
      rewrite Hpa in He. unfold enqueue.
      assert (every_event P
                (with_this
                   (λ a, set_eventQueue
                           (eventQueue a ++
                              [buildEvent (this w) h metricName value contentId
                                 pa experimentGroup]) a) w)) as H1.
      { split_and!; simpl; try done.
        apply Forall_app. split; [done|]. apply Forall_singleton. by apply He. }
      case_match; [by apply every_event_flush | done].
    + unfold trackEvent. by rewrite Hen.
  - by apply every_event_flush.
  - unfold retryFailedBatches. apply every_event_settle; [done|].
    by split_and!; simpl.
  - by split_and!; simpl.
  - unfold destroy. apply every_event_flush.
    case_match; by eapply every_event_ext.
  - unfold timerTick. repeat case_match; try done. by apply every_event_flush.
  - unfold flushSync. repeat case_match; try done; by split_and!; simpl.
  - unfold flushSync. repeat case_match; try done; by split_and!; simpl.
  - case_match; [by apply every_event_flush | done].
  - unfold fetchSettled.
    destruct (tasks w !! i) as [t|] eqn:Hi; [|done].
    destruct (proj1 (Forall_lookup _ _) Ht i t Hi) as [Hb Hp].
    destruct (phase t) eqn:Hph; try done.
    destruct ok; [|case_match].
    + apply every_event_settle; [done|].
      by apply (every_event_set_task w i t).
    + eapply every_event_ext;
        [| | |by apply (every_event_set_task w i t
                          (set_phase (RetryScheduled
                                        (2 ^ Z.of_nat (retryCount t) * 1000)) t))];
        done.
    + apply every_event_settle; [done|].
      apply (every_event_set_task _ i t); try done.
      split_and!; simpl; try done.
      apply Forall_app. split; [done|]. by apply Forall_singleton.
  - unfold timeoutElapsed.
    destruct (tasks w !! i) as [t|] eqn:Hi; [|done].
    destruct (phase t) eqn:Hph; try done.
    eapply every_event_ext;
      [| | |by apply (every_event_set_task w i t
                        (mkSendTask (batch t) (S (retryCount t)) Attempting
                           (caller t)))];
      done.
Qed.

End EveryEvent.

Lemma buildEvent_sessionId a h m v c pa g :
  config_context (config a) !! "sessionId" = None →
  buildEvent a h m v c pa g !! "sessionId" = Some (JStr (sessionId a)).
Proof.
  intros H. unfold buildEvent, spread.
  rewrite lookup_union_r by done. by simplify_map_eq.
Qed.

Lemma run_config_sessionId (ops : list Op) :
  ∀ w : World,
    config (this (run JSON_parse w ops)) = config (this w) ∧
    sessionId (this (run JSON_parse w ops)) = sessionId (this w).
Proof.
  induction ops as [|op ops IH]; intros w; [done|].
  unfold run in *. simpl. destruct (IH (step JSON_parse w op)) as [-> ->].
  apply step_config_sessionId.
Qed.

(** X11: one session identifier per instance.  The identifier generated
    by the constructor never changes, and unless the context defines a
    [sessionId] key every event the instance holds after any sequence of
    operations (queued, in a send, waiting for resubmission or archived)
    carries it. *)
Theorem every_event_carries_the_session_id
    (c : AnalyticsConfig) (h : Host) (w0 : World) (ops : list Op) :
  constructor c h = Normal w0 →
  default ∅ (context c) !! "sessionId" = None →
  let w := run JSON_parse w0 ops in
  getSessionId w = generateSessionId h ∧
  every_event (λ e, e !! "sessionId" = Some (JStr (generateSessionId h))) w.
Proof.
  intros Hc Hctx. cbv zeta.
  assert (sessionId (this w0) = generateSessionId h ∧
          config_context (config (this w0)) = default ∅ (context c) ∧
          every_event
            (λ e, e !! "sessionId" = Some (JStr (generateSessionId h))) w0)
    as (Hs & Hcc & H0).
  { unfold constructor in Hc. simplify_eq. unfold setupUnloadHandler.
    repeat case_match; split_and!; simpl; by try constructor. }
  clear Hc. split.
  - unfold getSessionId. by destruct (run_config_sessionId ops w0) as [_ ->].
  - revert w0 Hs Hcc H0. unfold run.
    induction ops as [|op ops IH]; intros w0 Hs Hcc H0; simpl; [done|].
    destruct (step_config_sessionId JSON_parse w0 op) as [Hc' Hs'].
    apply IH; [congruence | by rewrite Hc' |].
    apply step_every_event; [|done].
    intros e He. destruct op; try discriminate. simpl in He.
    repeat case_match; simplify_eq.
    rewrite buildEvent_sessionId by (by rewrite Hcc). by rewrite Hs.
Qed.

(** *** Attributes that parse *)

(** X12: on an enabled instance whose context has no [attributes] key, a
    non-empty attributes string that [JSON.parse] accepts is stored as the
    parsed value, whatever it is: a number, an array or [null] is not
    turned into a mapping.  A truthy argument that is not a string is
    stored as it is, and a falsy one (undefined, null, false, 0) gives the
    empty mapping. *)
Theorem accepted_attributes_are_stored_as_parsed
    (w : World) (h : Host) (m : string) (v c g a : JsValue) :
  config_enabled (config (this w)) = true →
  config_context (config (this w)) !! "attributes" = None →
  ∃ event w',
    trackEvent JSON_parse m v c a g h w = Normal w' ∧
    enqueued event w w' ∧
    (∀ s x, a = JStr s → s ≠ "" → JSON_parse s = Normal x →
            event !! "attributes" = Some x) ∧
    ((∀ s, a ≠ JStr s) → truthy a = true → event !! "attributes" = Some a) ∧
    (truthy a = false → event !! "attributes" = Some (JObj ∅)).
Proof.
  intros Hen Hctx. destruct (parseAttributes_total JSON_parse a) as [pa Hpa].
  eexists _, _. split; [by apply trackEvent_enabled|].
  split; [apply enqueue_enqueued|].
  rewrite buildEvent_attributes by done.
  unfold parseAttributes in Hpa. split_and!.
  - intros s x -> Hs Hx. simpl in Hpa. apply String.eqb_neq in Hs.
    rewrite Hs, Hx in Hpa. simpl in Hpa. congruence.
  - intros Hns Ht. rewrite Ht in Hpa.
    destruct a; congruence.
  - intros Hf. rewrite Hf in Hpa. congruence.
Qed.

(** *** The singleton *)

(** X13: [initializeAnalytics] always starts afresh.  The new instance
    has an empty queue, an empty archive and the session identifier of
    this call; nothing of a previous instance is carried over.  The
    previous instance is destroyed, not emptied: when its flush was in
    flight its queued events stay in its own queue, out of reach of the
    exported functions. *)
Theorem initializeAnalytics_starts_afresh
    (c : AnalyticsConfig) (h : Host) (s : Singleton) :
  ∃ s' w',
    Exported.initializeAnalytics c h s = Normal s' ∧
    Exported.getAnalyticsInstance s' = Some w' ∧
    Exported.getQueueSize s' = 0%nat ∧
    Exported.getSessionId s' = Some (generateSessionId h) ∧
    getFailedBatches w' = [] ∧
    tasks w' = [] ∧
    (∀ w, analyticsInstance s = Some w →
          replaced s' = replaced s ++ [destroy w] ∧
          flushTimer (this (destroy w)) = None ∧
          (isFlushingInProgress (this w) = true →
           eventQueue (this (destroy w)) = eventQueue (this w) ∧
           tasks (destroy w) = tasks w)).
Proof.
  unfold Exported.initializeAnalytics, constructor. simpl.
  eexists _, _. split; [reflexivity|]. split; [reflexivity|].
  unfold Exported.getQueueSize, Exported.getSessionId. simpl.
  assert (∀ w, flushTimer (this (destroy w)) = None) as Htimer.
  { intros w. unfold destroy, flush. repeat case_match; simplify_eq; done. }
  assert (∀ w, isFlushingInProgress (this w) = true →
               eventQueue (this (destroy w)) = eventQueue (this w) ∧
               tasks (destroy w) = tasks w) as Hbusy.
  { intros w Hb. unfold destroy.
    destruct (flushTimer (this w)); by rewrite flush_busy. }
  unfold setupUnloadHandler.
  destruct (default true (enabled c)), (window_defined h); simpl;
    split_and!; try done; intros w ->; split_and!; auto.
Qed.

(** *** The wrapper class *)

(** X14: the constructor of [CSVAnalytics] raises exactly when the
    instance is enabled and the host has a [window] but no [document]; in
    every other case it returns an instance, and a disabled one registers
    nothing. *)
Theorem csv_constructor_needs_a_document
    (c : CSV.CSVAnalyticsConfig) (h : Host) :
  (raises (CSV.constructor c h) ↔
   default true (CSV.enabled c) = true ∧
   window_defined h = true ∧ document_defined h = false) ∧
  (¬ raises (CSV.constructor c h) →
   ∃ w, CSV.constructor c h = Normal w ∧
        eventQueue (this w) = [] ∧
        config_endpoint (config (this w)) = CSV.firehoseUrl c ∧
        (visibilityHandler w = unloadHandlers w) ∧
        (unloadHandlers w = true ↔
         default true (CSV.enabled c) = true ∧ window_defined h = true)).
Proof.
  unfold CSV.constructor, CSV.setupUnloadHandler, raises. simpl.
  destruct (default true (CSV.enabled c)), (window_defined h),
    (document_defined h); simpl.
  all: split; [split|].
  all: first
    [ by intros [e [=]]
    | by intros (? & ? & ?)
    | by (intros _; eexists)
    | by (intros H; destruct H; eexists)
    | intros _; eexists; split_and!; try reflexivity;
      split; [by intros [=] | by intros [? ?]]
    | intros _; eexists; split_and!; try reflexivity; by split ].
Qed.

(** X15: every event that [emitMetric] enqueues has exactly the eighteen
    columns of the CSV schema, and its session identifier is the
    instance's: nothing a caller passes can add, drop or replace a
    column.  An attributes string that is absent or empty gives the empty
    mapping; a non-empty one that does not parse is kept under [raw]. *)
Theorem csv_event_has_the_schema_columns
    (utils : CSV.Utils) (w : World) (h : Host) (iso name : string)
    (v c g : JsValue) (attrs : option string) :
  config_enabled (config (this w)) = true →
  ∃ event w',
    CSV.emitMetric JSON_parse utils name v c attrs g h iso w = Normal w' ∧
    enqueued event w w' ∧
    dom event = list_to_set CSV.columns ∧
    event !! "sessionId" = Some (JStr (sessionId (this w))) ∧
    (attrs = None ∨ attrs = Some "" →
     event !! "metricAttributes" = Some (JObj ∅)) ∧
    (∀ s, attrs = Some s → s ≠ "" → raises (JSON_parse s) →
          event !! "metricAttributes" = Some (JObj {[ "raw" := JStr s ]})).
Proof.
  intros Hen.
  assert (∃ pa, CSV.parseMetricAttributes JSON_parse attrs = Normal pa ∧
                (attrs = None ∨ attrs = Some "" → pa = JObj ∅) ∧
                (∀ s, attrs = Some s → s ≠ "" → raises (JSON_parse s) →
                      pa = JObj {[ "raw" := JStr s ]}))
    as (pa & Hpa & Hempty & Hraw).
  { unfold CSV.parseMetricAttributes. destruct attrs as [s|].
    - simpl. destruct (String.eqb s "") eqn:Es; simpl.
      + apply String.eqb_eq in Es as ->. eexists. split; [done|].
        split; [done|]. by intros s [= <-].
      + apply String.eqb_neq in Es.
        destruct (JSON_parse s) as [x|e] eqn:Ej; simpl; eexists;
          (split; [done|]); split.
        * intros [|[=]]; congruence.
        * intros s' [= <-] _ [e He]. congruence.
        * intros [|[=]]; congruence.
        * by intros s' [= <-].
    - eexists. split; [done|]. split; [done|]. by intros s [=]. }
  unfold CSV.emitMetric. rewrite Hen. simpl.
  unfold mbind, completion_bind. rewrite Hpa. simpl.
  eexists _, _. split; [reflexivity|]. split; [apply enqueue_enqueued|].
  unfold CSV.buildMetricEvent.
  split; [by rewrite dom_list_to_map_L|].
  split; [reflexivity|].
  split.
  - intros H. by rewrite (Hempty H).
  - intros s Hs Hne Hr. by rewrite (Hraw s Hs Hne Hr).
Qed.

(** *** Batches are never empty *)

Lemma no_empty_batch_sendBatch (b : Batch) (c : Caller) (w : World) :
  b ≠ [] → Forall (λ b, b ≠ []) (pending c) →
  no_empty_batch w → no_empty_batch (sendBatch b c w).
Proof.
  intros Hb Hc (Hf & Ht & He). split_and!; simpl; try done.
  - apply Forall_app. split; [done|]. by apply Forall_singleton.
  - apply Forall_app. split; [done|]. apply Forall_singleton. simpl. congruence.
Qed.

Lemma no_empty_batch_flush (w : World) :
  no_empty_batch w → no_empty_batch (flush w).
Proof.
  intros H. unfold flush.
  destruct (length (eventQueue (this w)) =? 0)%nat eqn:E; [done|].
  destruct (isFlushingInProgress (this w)); [done|]. simpl.
  apply no_empty_batch_sendBatch; [|done|done].
  simpl. apply Nat.eqb_neq in E. by destruct (eventQueue (this w)).
Qed.

Lemma no_empty_batch_settle (c : Caller) (w : World) :
  Forall (λ b, b ≠ []) (pending c) →
  no_empty_batch w → no_empty_batch (settle c w).
Proof.
  intros Hc H. destruct c as [|[|b r]]; simpl; try done.
  apply Forall_cons in Hc as [Hb Hr]. by apply no_empty_batch_sendBatch.
Qed.

Lemma no_empty_batch_set_task (w : World) i t t' :
  tasks w !! i = Some t → batch t' = batch t → caller t' = caller t →
  no_empty_batch w → no_empty_batch (set_task i t' w).
Proof.
  intros Hi Hb Hc (Hf & Ht & He). split_and!; simpl; try done.
  apply Forall_insert; [done|]. rewrite Hb, Hc.
  exact (proj1 (Forall_lookup _ _) Ht i t Hi).
Qed.

Lemma no_empty_batch_ext (w w' : World) :
  failedBatches (this w') = failedBatches (this w) →
  tasks w' = tasks w →
  effects w' = effects w ∨
  (∃ e, effects w' = effects w ++ [e] ∧ body e ≠ Some []) →
  no_empty_batch w → no_empty_batch w'.
Proof.
  unfold no_empty_batch. intros -> -> He (Hf & Ht & Hw).
  split_and!; try done. destruct He as [->|(e & -> & He)]; [done|].
  apply Forall_app. split; [done|]. by apply Forall_singleton.
Qed.

Lemma step_no_empty_batch (w : World) (op : Op) :
  no_empty_batch w → no_empty_batch (step JSON_parse w op).
Proof.
  intros H. pose proof H as (Hf & Ht & He). destruct op; simpl.
  - destruct (config_enabled (config (this w))) eqn:Hen.
    + destruct (parseAttributes_total JSON_parse attributes) as [pa Hpa].
      rewrite (trackEvent_enabled JSON_parse _ _ _ _ _ _ _ pa Hen Hpa).
      unfold enqueue. case_match.
      * apply no_empty_batch_flush.
        by apply (no_empty_batch_ext w); [| |left|].
      * by apply (no_empty_batch_ext w); [| |left|].
    + unfold trackEvent. by rewrite Hen.
  - by apply no_empty_batch_flush.
  - unfold retryFailedBatches. apply no_empty_batch_settle; [done|].
    split_and!; simpl; by try constructor.
  - split_and!; simpl; by try constructor.
  - unfold destroy. apply no_empty_batch_flush.
    case_match; [|done]. apply (no_empty_batch_ext w); [done|done| |done].
    right. by eexists.
  - unfold timerTick. repeat case_match; try done.
    by apply no_empty_batch_flush.
  - case_match; [|done]. unfold flushSync.
    destruct (length (eventQueue (this w)) =? 0)%nat eqn:E; [done|].
    apply Nat.eqb_neq in E.
    assert (eventQueue (this w) ≠ []) as Hq by (by destruct (eventQueue (this w))).
    repeat case_match;
      (apply (no_empty_batch_ext w); [done|done| |done]);
      try (by left); right; eexists; (split; [done|]); simpl; congruence.
  - case_match; [|done]. unfold flushSync.
    destruct (length (eventQueue (this w)) =? 0)%nat eqn:E; [done|].
    apply Nat.eqb_neq in E.
    assert (eventQueue (this w) ≠ []) as Hq by (by destruct (eventQueue (this w))).
    repeat case_match;
      (apply (no_empty_batch_ext w); [done|done| |done]);
      try (by left); right; eexists; (split; [done|]); simpl; congruence.
  - case_match; [by apply no_empty_batch_flush | done].
  - unfold fetchSettled.
    destruct (tasks w !! i) as [t|] eqn:Hi; [|done].
    destruct (proj1 (Forall_lookup _ _) Ht i t Hi) as [Hb Hp].
    destruct (phase t) eqn:Hph; try done.
    destruct ok; [|case_match].
    + apply no_empty_batch_settle; [done|].
      by apply (no_empty_batch_set_task w i t).
    + eapply no_empty_batch_ext;
        [| | |by apply (no_empty_batch_set_task w i t
                          (set_phase (RetryScheduled
                                        (2 ^ Z.of_nat (retryCount t) * 1000)) t))];
        try done.
      right. by eexists.
    + apply no_empty_batch_settle; [done|].
      apply (no_empty_batch_set_task _ i t); try done.
      split_and!; simpl; try done.
      apply Forall_app. split; [done|]. by apply Forall_singleton.
  - unfold timeoutElapsed.
    destruct (tasks w !! i) as [t|] eqn:Hi; [|done].
    destruct (proj1 (Forall_lookup _ _) Ht i t Hi) as [Hb Hp].
    destruct (phase t) eqn:Hph; try done.
    eapply no_empty_batch_ext;
      [| | |by apply (no_empty_batch_set_task w i t
                        (mkSendTask (batch t) (S (retryCount t)) Attempting
                           (caller t)))];
      try done.
    right. eexists. split; [done|]. simpl. congruence.
Qed.

(** X16: the instance never hands an empty batch to the host and never
    archives one: in every reachable state the body of every POST, beacon
    and synchronous request issued so far is non-empty, and so is every
    batch in the failed-batch archive. *)
Theorem batches_are_never_empty (w : World) :
  reachable JSON_parse w →
  (∀ e b, e ∈ effects w → body e = Some b → b ≠ []) ∧
  (∀ b, b ∈ getFailedBatches w → b ≠ []).
Proof.
  intros (c & h & w0 & ops & Hc & ->).
  assert (no_empty_batch w0) as H0.
  { unfold constructor in Hc. simplify_eq.
    unfold setupUnloadHandler, startFlushTimer.
    repeat case_match; split_and!; simpl;
      repeat constructor; simpl; congruence. }
  clear Hc.
  assert (no_empty_batch (run JSON_parse w0 ops)) as (Hf & _ & He).
  { revert w0 H0. unfold run.
    induction ops as [|op ops IH]; intros w0 H0; simpl; [done|].
    apply IH. by apply step_no_empty_batch. }
  split.
  - intros e b Hin Hb ->.
    by apply (proj1 (Forall_forall _ _) He e Hin).
  - intros b Hin. by apply (proj1 (Forall_forall _ _) Hf b Hin).
Qed.

(** *** [clear] and sends in flight *)

(** X17: [clear] does not cancel a send in flight.  If a batch is being
    delivered when [clear] is called and the endpoint then fails every
    one of its attempts, the batch is archived all the same: the archive
    that [clear] emptied holds exactly that batch. *)
Theorem clear_does_not_cancel_sends
    (w : World) (i : nat) (t : SendTask) (m : nat) :
  tasks w !! i = Some t →
  phase t = Attempting →
  retryCount t = 0%nat →
  config_maxRetries (config (this w)) = Z.of_nat m →
  let w' := run JSON_parse w
              (CallClear :: retry_rounds i m ++ [FetchSettled i false]) in
  getFailedBatches w' = [batch t] ∧
  getQueueSize (step JSON_parse w CallClear) = 0%nat ∧
  tasks (step JSON_parse w CallClear) = tasks w.
Proof.
  intros Ht Hp Hr Hm. cbv zeta. split; [|done].
  change (run JSON_parse w (CallClear :: ?l)) with (run JSON_parse (clear w) l).
  rewrite run_app.
  rewrite (run_retry_rounds JSON_parse i m (clear w) t Ht Hp)
    by (simpl; rewrite Hr, Hm; lia).
  set (w1 := mkWorld _ _ _ _ _).
  assert (tasks w1 !! i
          = Some (mkSendTask (batch t) (retryCount t + m) Attempting (caller t)))
    as H1.
  { simpl. rewrite list_lookup_insert_eq; [done|]. by eapply lookup_lt_Some. }
  change (run JSON_parse w1 [FetchSettled i false])
    with (fetchSettled i false w1).
  rewrite (fetchSettled_exhausted w1 i _ H1 eq_refl)
    by (simpl; rewrite Hr, Hm; lia).
  unfold getFailedBatches. by rewrite settle_failedBatches.
Qed.

End Behaviour.

(** ** The results at concrete instances *)

Module Evaluated.
Import Scenario.

Lemma constructor_w_two : constructor given_two host = Normal w_two.
Proof. reflexivity. Qed.

Lemma constructor_w_context : constructor given_context host = Normal w_context.
Proof. reflexivity. Qed.

Lemma reachable_from_w_two (ops : list Op) :
  reachable Json.parse (run Json.parse w_two ops).
Proof. exists given_two, host, w_two, ops. split; reflexivity. Defined.

(** The scenario of the specification: [{batchSize: 2, maxRetries: 1}],
    two clicks, and an endpoint that fails twice (the first attempt and
    the one retry).  One flush fires at once with both records in order;
    after the first failure nothing is archived, after the second the
    archive holds exactly that batch. *)
Lemma one_retry_scenario :
  let w := run Json.parse w_one_retry in_flight in
  let w1 := run Json.parse w [FetchSettled 0 false] in
  let w2 := run Json.parse w1 [TimeoutElapsed 0; FetchSettled 0 false] in
  map (λ e : gmap string JsValue, e !! "contentId") two_clicks
  = [Some (JStr "btn-1"); Some (JStr "btn-2")] ∧
  tasks w = [mkSendTask two_clicks 0 Attempting ByFlush] ∧
  effects w = [SetInterval 30000; Fetch (Some url) two_clicks] ∧
  eventQueue (this w) = [] ∧
  failedBatches (this w1) = [] ∧
  tasks w1 = [mkSendTask two_clicks 0 (RetryScheduled 1000) ByFlush] ∧
  failedBatches (this w2) = [two_clicks] ∧
  tasks w2 = [mkSendTask two_clicks 1 Exhausted ByFlush].
Proof. intros w w1 w2. split_and!; reflexivity. Qed.

(** C1, as stated, fails: with the default [maxRetries] of 3, after
    exactly three failed deliveries the archive is still empty and a
    fourth attempt is scheduled (after 4000 ms); when that attempt
    succeeds the batch has never reached the archive. *)
Lemma three_failures_are_not_archived :
  let w := run Json.parse w_two in_flight in
  let w3 := run Json.parse w (fail_and_wait ++ fail_and_wait ++ [FetchSettled 0 false]) in
  let w4 := run Json.parse w3 [TimeoutElapsed 0; FetchSettled 0 true] in
  config_maxRetries (config (this w)) = 3 ∧
  failedBatches (this w3) = [] ∧
  phase <$> tasks w3 !! 0%nat = Some (RetryScheduled 4000) ∧
  phase <$> tasks w4 !! 0%nat = Some Succeeded ∧
  failedBatches (this w4) = [].
Proof. intros w w3 w4. split_and!; reflexivity. Qed.

(** The amended C1 at [maxRetries = 3]: the fourth failure archives the
    batch. *)
Lemma archived_after_all_retries_fail_witness :
  let w := run Json.parse w_two in_flight in
  let w' := run Json.parse w (retry_rounds 0 3 ++ [FetchSettled 0 false]) in
  (∃ t, tasks w !! 0%nat = Some t ∧ phase t = Attempting ∧
        retryCount t = 0%nat ∧
        failedBatches (this w') = failedBatches (this w) ++ [batch t]) ∧
  config_maxRetries (config (this w)) = Z.of_nat 3.
Proof.
  split; [|reflexivity].
  eexists. split; [reflexivity|]. split; [reflexivity|]. split; [reflexivity|].
  eapply (archived_after_all_retries_fail Json.parse
            (run Json.parse w_two in_flight) 0 _ 3);
    reflexivity.
Defined.



(** The third failed attempt ([n = 2]) waits 4000 ms and re-sends the
    batch. *)
Lemma backoff_delay_is_exponential_witness :
  let w := run Json.parse w_two (in_flight ++ fail_and_wait ++ fail_and_wait) in
  let w1 := fetchSettled 0 false w in
  (∃ t, tasks w !! 0%nat = Some t ∧ phase t = Attempting ∧
        retryCount t = 2%nat ∧
        tasks w1 !! 0%nat
        = Some (mkSendTask (batch t) 2 (RetryScheduled 4000) (caller t))) ∧
  Z.of_nat 2 < config_maxRetries (config (this w)) ∧
  effects w1 = effects w ++ [SetTimeout 4000].
Proof.
  pose proof (backoff_delay_is_exponential Json.parse
                (run Json.parse w_two (in_flight ++ fail_and_wait ++ fail_and_wait))
                0 _ 2 eq_refl eq_refl eq_refl eq_refl) as H.
  split; [eexists; repeat split; apply H|]. split; [reflexivity | apply H].
Defined.

(** C5, as stated, fails: a configuration without an endpoint is
    accepted; the constructor returns an instance whose endpoint is
    missing. *)
Lemma constructor_accepts_missing_endpoint :
  ¬ raises (constructor given_no_endpoint host) ∧
  ∃ w, constructor given_no_endpoint host = Normal w ∧
       config_endpoint (config (this w)) = None.
Proof.
  split; [intros [e He]; discriminate|]. eexists. split; reflexivity.
Qed.

(** C6, as stated, fails: with [batchSize = 2] and the first flush in
    flight, the enqueue that brings the queue to length 2 starts no flush:
    no send is added and both events stay queued. *)
Lemma size_trigger_is_dropped_while_busy :
  let w := run Json.parse w_two (in_flight ++ [click "btn-3"]) in
  let w' := step Json.parse w (click "btn-4") in
  config_enabled (config (this w)) = true ∧
  Z.of_nat (length (eventQueue (this w'))) = config_batchSize (config (this w')) ∧
  tasks w' = tasks w ∧
  effects w' = effects w.
Proof. intros w w'. split_and!; reflexivity. Qed.

Lemma size_trigger_flushes_when_idle_witness :
  let w := run Json.parse w_two [click "btn-1"] in
  config_enabled (config (this w)) = true ∧
  Z.of_nat (length (eventQueue (this w))) + 1 >= config_batchSize (config (this w)) ∧
  isFlushingInProgress (this w) = false ∧
  ∃ w', step Json.parse w (click "btn-2") = w' ∧
        eventQueue (this w') = [] ∧ length (tasks w') = 1%nat.
Proof.
  split; [reflexivity|]. split; [vm_compute; discriminate|].
  split; [reflexivity|].
  destruct (size_trigger_flushes_when_idle Json.parse
              (run Json.parse w_two [click "btn-1"]) host
              "Click" JUndefined (JStr "btn-2") JUndefined JUndefined
              eq_refl ltac:(vm_compute; discriminate))
    as (event & w' & Htrack & Hidle & _).
  exists w'. destruct (Hidle eq_refl) as (Hq & _ & Ht & _).
  split; [unfold click in *; cbn [step]; by rewrite Htrack|].
  split; [done|]. by rewrite Ht.
Defined.

(** C7, as stated, fails at the empty string: it is not JSON, yet the
    event is enqueued with attributes [{}], not [{raw: ""}]. *)
Lemma empty_string_is_not_wrapped :
  raises (Json.parse "") ∧
  ∃ w' event,
    trackEvent Json.parse "Click" JUndefined JUndefined (JStr "") JUndefined
      host w_two = Normal w' ∧
    eventQueue (this w') = [event] ∧
    event !! "attributes" = Some (JObj ∅) ∧
    event !! "attributes" ≠ Some (JObj {[ "raw" := JStr "" ]}).
Proof.
  split; [by eexists|]. eexists _, _.
  split; [reflexivity|]. split; [reflexivity|].
  split; [reflexivity|]. vm_compute. discriminate.
Qed.

(** The amended C7 at the input of the specification. *)
Lemma unparsable_attributes_are_wrapped_witness :
  config_enabled (config (this w_two)) = true ∧
  config_context (config (this w_two)) !! "attributes" = None ∧
  "{bad json" ≠ "" ∧
  raises (Json.parse "{bad json") ∧
  ∃ event w',
    trackEvent Json.parse "Click" JUndefined JUndefined (JStr "{bad json")
      JUndefined host w_two = Normal w' ∧
    enqueued event w_two w' ∧
    event !! "attributes" = Some (JObj {[ "raw" := JStr "{bad json" ]}).
Proof.
  split; [reflexivity|]. split; [reflexivity|].
  split; [discriminate|]. split; [eexists; reflexivity|].
  apply (unparsable_attributes_are_wrapped Json.parse w_two host "Click"
           JUndefined JUndefined JUndefined "{bad json").
  - reflexivity.
  - reflexivity.
  - discriminate.
  - eexists; reflexivity.
Defined.

Lemma context_overwrites_reserved_fields_witness :
  config_enabled (config (this w_context)) = true ∧
  "attributes" ∈ reserved_fields ∧
  config_context (config (this w_context)) !! "attributes"
  = Some (JStr "from-context") ∧
  ∃ event w',
    trackEvent Json.parse "Click" JUndefined JUndefined
      (JObj {[ "action" := JStr "click" ]}) JUndefined host w_context
    = Normal w' ∧
    enqueued event w_context w' ∧
    event !! "attributes" = Some (JStr "from-context").
Proof.
  split; [reflexivity|].
  split; [do 4 apply list_elem_of_further; apply list_elem_of_here|].
  split; [reflexivity|].
  apply (context_overwrites_reserved_fields Json.parse w_context host "Click"
           JUndefined JUndefined (JObj {[ "action" := JStr "click" ]})
           JUndefined "attributes" (JStr "from-context")).
  - reflexivity.
  - do 4 apply list_elem_of_further; apply list_elem_of_here.
  - reflexivity.
Defined.

(** C10, as stated, fails when the context defines [attributes]: the
    empty-string call then yields the context's value, not [{}]. *)
Lemma context_replaces_empty_attributes :
  ∃ w' event,
    trackEvent Json.parse "Click" JUndefined JUndefined (JStr "") JUndefined
      host w_context = Normal w' ∧
    eventQueue (this w') = [event] ∧
    event !! "attributes" = Some (JStr "from-context") ∧
    event !! "attributes" ≠ Some (JObj ∅).
Proof.
  eexists _, _. split; [reflexivity|]. split; [reflexivity|].
  split; [reflexivity|]. vm_compute. discriminate.
Qed.

Lemma empty_string_attributes_are_empty_mapping_witness :
  config_enabled (config (this w_two)) = true ∧
  config_context (config (this w_two)) !! "attributes" = None ∧
  ∃ event w',
    trackEvent Json.parse "Click" JUndefined JUndefined (JStr "") JUndefined
      host w_two = Normal w' ∧
    enqueued event w_two w' ∧
    event !! "attributes" = Some (JObj ∅).
Proof.
  split; [reflexivity|]. split; [reflexivity|].
  destruct (empty_string_attributes_are_empty_mapping Json.parse w_two host
              "Click" JUndefined JUndefined JUndefined eq_refl eq_refl)
    as (event & w' & H1 & H2 & H3 & _).
  by exists event, w'.
Defined.

(** C2, as stated, fails: an event tracked while a flush is in flight can
    be lost.  With the first batch in flight a third click is queued;
    [clear] then discards it, and so does a page-hide on a host without
    transport: in both runs the queue is empty afterwards, no host call
    has been made for the event, and the later flush requests send
    nothing, so the only batch ever taken is the one of the first two
    clicks. *)
Lemma event_tracked_in_flight_can_be_lost :
  let w := run Json.parse w_two (in_flight ++ [click "btn-3"]) in
  let later := [FetchSettled 0 true; CallFlush; TimerTick] in
  let cleared := run Json.parse w (CallClear :: later) in
  let unloaded := run Json.parse w (PageHide bare_host :: later) in
  isFlushingInProgress (this w) = true ∧
  contentIds (eventQueue (this w)) = [Some (JStr "btn-3")] ∧
  contentIds (taken_and_queued w)
  = [Some (JStr "btn-1"); Some (JStr "btn-2"); Some (JStr "btn-3")] ∧
  contentIds (taken_and_queued cleared)
  = [Some (JStr "btn-1"); Some (JStr "btn-2")] ∧
  effects cleared = effects w ∧
  contentIds (taken_and_queued unloaded)
  = [Some (JStr "btn-1"); Some (JStr "btn-2")] ∧
  effects unloaded = effects w.
Proof.
  intros w later cleared unloaded. split_and!; vm_compute; reflexivity.
Qed.

(** C2 at a concrete run: with the first batch in flight a third click is
    queued; the send then succeeds and the next flush takes it. *)
Lemma flush_takes_queue_and_later_events_wait_witness :
  let w0 := run Json.parse w_two [click "btn-1"] in
  let w := run Json.parse w_two in_flight in
  let ops := [FetchSettled 0 true; CallFlush] in
  (eventQueue (this w0) ≠ [] ∧ isFlushingInProgress (this w0) = false ∧
   eventQueue (this (flush w0)) = []) ∧
  config_enabled (config (this w)) = true ∧
  forallb async_op ops = true ∧
  ∃ t event w',
    tasks w !! 0%nat = Some t ∧ flush_in_flight t = true ∧
    trackEvent Json.parse "Click" JUndefined (JStr "btn-3") JUndefined
      JUndefined host w = Normal w' ∧
    tasks w' = tasks w ∧
    eventQueue (this w') = eventQueue (this w) ++ [event] ∧
    tasks (run Json.parse w' ops)
    = <[0%nat := set_phase Succeeded t]> (tasks w) ++
      [mkSendTask (eventQueue (this w) ++ [event]) 0 Attempting ByFlush].
Proof.
  intros w0 w ops.
  assert (eventQueue (this w0) ≠ []) as Hne
    by (apply nonempty_by_length; reflexivity).
  epose proof (flush_takes_queue_and_later_events_wait Json.parse
                 w0 w 0 _ host
                 "Click" JUndefined (JStr "btn-3") JUndefined JUndefined ops)
    as [HA HB].
  split.
  { split; [exact Hne|]. split; [reflexivity|]. apply (HA Hne eq_refl). }
  split; [reflexivity|]. split; [reflexivity|].
  destruct (HB (reachable_from_w_two _) eq_refl eq_refl eq_refl eq_refl)
    as (event & w' & Htrack & Htasks & Hq & _ & Hnext).
  eexists _, event, w'.
  split; [reflexivity|]. split; [reflexivity|].
  split; [exact Htrack|]. split; [exact Htasks|]. split; [exact Hq|].
  apply Hnext. reflexivity.
Defined.

End Evaluated.

(** ** The further properties at concrete instances *)

Module EvaluatedMore.
Import Scenario MoreScenario.

Lemma disabled_instance_is_inert_witness :
  enabled given_disabled = Some false ∧
  ∃ w0, constructor given_disabled host = Normal w0 ∧
        run Json.parse w0 (in_flight ++ [CallFlush; TimerTick; PageHide host])
        = w0.
Proof.
  split; [reflexivity|]. eexists. split; [reflexivity|].
  apply (disabled_instance_is_inert Json.parse given_disabled host);
    reflexivity.
Defined.

Lemma at_most_one_flush_in_flight_witness :
  let w := run Json.parse w_two in_flight in
  reachable Json.parse w ∧
  (count_if flush_in_flight (tasks w) ≤ 1)%nat.
Proof.
  split; [apply Evaluated.reachable_from_w_two|].
  apply (at_most_one_flush_in_flight Json.parse),
    Evaluated.reachable_from_w_two.
Defined.

Lemma tracking_while_busy_only_queues_witness :
  let w := run Json.parse w_two in_flight in
  config_enabled (config (this w)) = true ∧
  isFlushingInProgress (this w) = true ∧
  forallb is_track three_clicks = true ∧
  length (eventQueue (this (run Json.parse w three_clicks))) = 3%nat ∧
  effects (run Json.parse w three_clicks) = effects w.
Proof.
  intros w.
  pose proof (tracking_while_busy_only_queues Json.parse w three_clicks
                eq_refl eq_refl eq_refl) as (_ & Hl & _ & He & _).
  split; [reflexivity|]. split; [reflexivity|]. split; [reflexivity|].
  split; [exact Hl | exact He].
Defined.

Lemma timer_flushes_a_partial_batch_witness :
  config_enabled (config (this w_default)) = true ∧
  isFlushingInProgress (this w_default) = false ∧
  is_Some (flushTimer (this w_default)) ∧
  forallb is_track three_clicks = true ∧
  Z.of_nat (length (eventQueue (this w_default)) + length three_clicks)
    < config_batchSize (config (this w_default)) ∧
  effects (run Json.parse w_default three_clicks) = effects w_default ∧
  eventQueue (this (run Json.parse w_default (three_clicks ++ [TimerTick]))) = [].
Proof.
  assert (is_Some (flushTimer (this w_default))) as Ht by (by eexists).
  assert (Z.of_nat (length (eventQueue (this w_default)) + length three_clicks)
          < config_batchSize (config (this w_default))) as Hlt by reflexivity.
  pose proof (timer_flushes_a_partial_batch Json.parse w_default three_clicks
                eq_refl eq_refl Ht eq_refl ltac:(simpl; lia) Hlt)
    as (He & _ & _ & _ & Hq & _).
  split; [reflexivity|]. split; [reflexivity|]. split; [exact Ht|].
  split; [reflexivity|]. split; [exact Hlt|]. split; [exact He | exact Hq].
Defined.

Lemma unload_hands_over_the_queue_once_witness :
  let w := run Json.parse w_two [click "btn-1"] in
  unloadHandlers w = true ∧
  eventQueue (this w) ≠ [] ∧
  effects (step Json.parse w (PageHide old_host))
  = effects w ++ [XhrSend (Some url) (eventQueue (this w))] ∧
  step Json.parse (step Json.parse w (PageHide old_host)) (BeforeUnload host)
  = step Json.parse w (PageHide old_host).
Proof.
  intros w.
  assert (eventQueue (this w) ≠ []) as Hq
    by (apply nonempty_by_length; reflexivity).
  pose proof (unload_hands_over_the_queue_once Json.parse w old_host host
                eq_refl Hq) as (_ & _ & _ & _ & _ & Hx & _ & _ & Hb & _).
  split; [reflexivity|]. split; [exact Hq|].
  split; [exact (Hx eq_refl eq_refl) | exact Hb].
Defined.

Lemma retryFailedBatches_rearchives_on_failure_witness :
  let w := run Json.parse w_one_retry
             (in_flight ++ fail_and_wait ++ [FetchSettled 0 false]) in
  config_maxRetries (config (this w)) = Z.of_nat 1 ∧
  failedBatches (this w) = [two_clicks] ∧
  failedBatches
    (this (run Json.parse w
             (CallRetryFailedBatches :: exhaust_each 1 (length (tasks w)) 1)))
  = [two_clicks].
Proof.
  intros w.
  assert (failedBatches (this w) = [two_clicks]) as Hf by reflexivity.
  pose proof (retryFailedBatches_rearchives_on_failure Json.parse w 1 eq_refl)
    as (H & _).
  cbv zeta in H. rewrite Hf in H.
  split; [reflexivity|]. split; [exact Hf | exact H].
Defined.

Lemma resolved_flush_releases_the_busy_flag_witness :
  let w := run Json.parse w_two (in_flight ++ [click "btn-3"]) in
  (∃ t, tasks w !! 0%nat = Some t ∧ phase t = Attempting ∧ caller t = ByFlush) ∧
  let w' := step Json.parse w (FetchSettled 0 true) in
  isFlushingInProgress (this w') = false ∧
  eventQueue (this w') = eventQueue (this w) ∧
  effects w' = effects w.
Proof.
  intros w.
  split; [eexists; split_and!; reflexivity|].
  epose proof (resolved_flush_releases_the_busy_flag Json.parse w 0 _ true
                 eq_refl eq_refl eq_refl (or_introl eq_refl))
    as (Hb & Hq & He & _).
  split; [exact Hb|]. split; [exact Hq | exact He].
Defined.

Lemma attempts_are_bounded_witness :
  let w := run Json.parse w_two (in_flight ++ fail_and_wait ++ [FetchSettled 0 false]) in
  reachable Json.parse w ∧
  ∃ t, tasks w !! 0%nat = Some t ∧
       phase t = RetryScheduled 2000 ∧
       Z.of_nat (retryCount t) < config_maxRetries (config (this w)).
Proof.
  intros w. split; [apply Evaluated.reachable_from_w_two|].
  eexists. split; [reflexivity|]. split; [reflexivity|].
  eapply (attempts_are_bounded Json.parse w 0);
    [apply Evaluated.reachable_from_w_two | reflexivity | reflexivity].
Defined.

Lemma every_event_carries_the_session_id_witness :
  constructor given_two host = Normal w_two ∧
  default ∅ (context given_two) !! "sessionId" = None ∧
  every_event
    (λ e, e !! "sessionId" = Some (JStr (generateSessionId host)))
    (run Json.parse w_two (in_flight ++ [click "btn-3"])).
Proof.
  split; [reflexivity|]. split; [reflexivity|].
  apply (every_event_carries_the_session_id Json.parse given_two host w_two);
    reflexivity.
Defined.

Lemma accepted_attributes_are_stored_as_parsed_witness :
  config_enabled (config (this w_two)) = true ∧
  config_context (config (this w_two)) !! "attributes" = None ∧
  Json.parse "[1, 2]" = Normal (JArr [JNum 1 0; JNum 2 0]) ∧
  ∃ (event : gmap string JsValue) w',
    trackEvent Json.parse "Click" JUndefined JUndefined (JStr "[1, 2]")
      JUndefined host w_two = Normal w' ∧
    event !! "attributes" = Some (JArr [JNum 1 0; JNum 2 0]).
Proof.
  split; [reflexivity|]. split; [reflexivity|]. split; [reflexivity|].
  destruct (accepted_attributes_are_stored_as_parsed Json.parse w_two host
              "Click" JUndefined JUndefined JUndefined (JStr "[1, 2]")
              eq_refl eq_refl)
    as (event & w' & Htrack & _ & Hparsed & _).
  exists event, w'. split; [exact Htrack|].
  apply (Hparsed "[1, 2]"); [reflexivity | discriminate | reflexivity].
Defined.

Lemma csv_event_has_the_schema_columns_witness :
  config_enabled (config (this w_two)) = true ∧
  ∃ (event : gmap string JsValue) w',
    CSV.emitMetric Json.parse no_utils "ContentPageLoad" (JNum 1 0) JUndefined
      (Some "{bad json"%string) JUndefined host "2023-11-14T22:13:20.000Z" w_two
    = Normal w' ∧
    dom event = list_to_set CSV.columns ∧
    event !! "metricAttributes" = Some (JObj {[ "raw" := JStr "{bad json" ]}).
Proof.
  split; [reflexivity|].
  destruct (csv_event_has_the_schema_columns Json.parse no_utils w_two host
              "2023-11-14T22:13:20.000Z" "ContentPageLoad" (JNum 1 0)
              JUndefined JUndefined (Some "{bad json"%string) eq_refl)
    as (event & w' & Hemit & _ & Hdom & _ & _ & Hraw).
  exists event, w'. split; [exact Hemit|]. split; [exact Hdom|].
  apply (Hraw "{bad json"); [reflexivity | discriminate |].
  eexists; reflexivity.
Defined.

Lemma batches_are_never_empty_witness :
  let w := run Json.parse w_two (in_flight ++ [click "btn-3"; PageHide host]) in
  reachable Json.parse w ∧
  ∀ e b, e ∈ effects w → body e = Some b → b ≠ [].
Proof.
  intros w. split; [apply Evaluated.reachable_from_w_two|].
  apply (batches_are_never_empty Json.parse w),
    Evaluated.reachable_from_w_two.
Defined.

Lemma clear_does_not_cancel_sends_witness :
  let w := run Json.parse w_two in_flight in
  (∃ t, tasks w !! 0%nat = Some t ∧ phase t = Attempting ∧
        retryCount t = 0%nat ∧
        getFailedBatches
          (run Json.parse w
             (CallClear :: retry_rounds 0 3 ++ [FetchSettled 0 false]))
        = [batch t]) ∧
  config_maxRetries (config (this w)) = Z.of_nat 3.
Proof.
  intros w. split; [|reflexivity].
  eexists. split; [reflexivity|]. split; [reflexivity|]. split; [reflexivity|].
  eapply (clear_does_not_cancel_sends Json.parse w 0 _ 3); reflexivity.
Defined.

End EvaluatedMore.
